(** * galaxy_generator: the canvas physics, the pointer gestures and the
      spiral-galaxy generator

    A shallow embedding of [GalaxyCanvas] (the React component holding the
    stars) and of [generateSpiralGalaxyStars] (app/page.tsx).

    Numbers.  A JavaScript [number] is modelled by a real number: [+], [-],
    [*], [/], [Math.sqrt], [Math.exp], [Math.cos], [Math.sin] are the
    operations of [R].  Rounding, overflow, infinities and NaN are outside
    this model.  Counts that drive loops ([numStars], [numArms], loop
    indices) are integers ([Z]).  Two places need more care.  The
    generator floors the product [numStars * bulgeFraction] into the
    number of bulge stars, where rounding can change the count by one: this
    product is a parameter [times] of the generator, and what is proved
    for every [times] does not depend on how the machine rounds.  The
    square root of a negative number and a quotient by zero are NaN in the
    code and 0 in [R]: a property that reads such a value assumes the
    inputs on which the argument is not negative and the divisor not zero.

    Effects.  [Date.now()] and [Math.random()] are the only sources of
    non-determinism.  A pointer handler calls each at most once, so it
    receives the two results with the event; the generator calls them in a
    loop, so it runs in a small state monad over two call counters that
    index two oracles.  React state is an explicit record; every handler is
    a function from the state before the event to the state after it. *)

From Stdlib Require Import Reals Lra Lia ZArith List Permutation Bool.
From Stdlib Require Import Rgeom.
Import ListNotations.
Open Scope R_scope.

(** ** JavaScript numbers *)

Module Js.

(** [a === b] on numbers. *)
Definition eqb (a b : R) : bool := if Req_dec_T a b then true else false.

(** [a < b] and [a > b] on numbers. *)
Definition ltb (a b : R) : bool := if Rlt_dec a b then true else false.
Definition gtb (a b : R) : bool := ltb b a.

(** [Math.floor] of a number whose floor is used as a count or an index. *)
Definition floor (a : R) : Z := Zfloor a.

(** [Math.max] and [Math.min]. *)
Definition max (a b : R) : R := Rmax a b.
Definition min (a b : R) : R := Rmin a b.

(** [a || b] on numbers: [b] when [a] is falsy, that is [0]. *)
Definition or_else (a b : R) : R := if Req_dec_T a 0 then b else a.

End Js.

(** ** GalaxyCanvas *)

Module GalaxyCanvas.

(** [interface Star]. *)
Record Star : Type := mkStar {
  id : R;
  x : R;
  y : R;
  vx : R;
  vy : R;
  mass : R;
  imageIndex : option Z
}.

(** [interface GalaxyCanvasProps], without the two notification callbacks. *)
Record Props : Type := mkProps {
  width : R;
  height : R;
  gravity : R;
  timeStep : R;
  defaultMass : R
}.

(** The component's [useState] cells.  [starImages] only matters through
    its length. *)
Record State : Type := mkState {
  stars : list Star;
  isDragging : bool;
  lastMousePos : option (R * R);
  startDragPos : option (R * R);
  isPaused : bool;
  starImagesLength : Z;
  imagesLoaded : bool
}.

Definition initialState : State :=
  {| stars := []; isDragging := false; lastMousePos := None;
     startDragPos := None; isPaused := false;
     starImagesLength := 0; imagesLoaded := false |}.

Definition set_stars (f : list Star -> list Star) (st : State) : State :=
  {| stars := f (stars st); isDragging := isDragging st;
     lastMousePos := lastMousePos st; startDragPos := startDragPos st;
     isPaused := isPaused st; starImagesLength := starImagesLength st;
     imagesLoaded := imagesLoaded st |}.

Definition set_isDragging (b : bool) (st : State) : State :=
  {| stars := stars st; isDragging := b;
     lastMousePos := lastMousePos st; startDragPos := startDragPos st;
     isPaused := isPaused st; starImagesLength := starImagesLength st;
     imagesLoaded := imagesLoaded st |}.

Definition set_lastMousePos (p : option (R * R)) (st : State) : State :=
  {| stars := stars st; isDragging := isDragging st;
     lastMousePos := p; startDragPos := startDragPos st;
     isPaused := isPaused st; starImagesLength := starImagesLength st;
     imagesLoaded := imagesLoaded st |}.

Definition set_startDragPos (p : option (R * R)) (st : State) : State :=
  {| stars := stars st; isDragging := isDragging st;
     lastMousePos := lastMousePos st; startDragPos := p;
     isPaused := isPaused st; starImagesLength := starImagesLength st;
     imagesLoaded := imagesLoaded st |}.

Definition set_isPaused (b : bool) (st : State) : State :=
  {| stars := stars st; isDragging := isDragging st;
     lastMousePos := lastMousePos st; startDragPos := startDragPos st;
     isPaused := b; starImagesLength := starImagesLength st;
     imagesLoaded := imagesLoaded st |}.

(** The image loader's completion: [setStarImages(images)] and
    [setImagesLoaded(true)]. *)
Definition imagesReady (n : Z) (st : State) : State :=
  {| stars := stars st; isDragging := isDragging st;
     lastMousePos := lastMousePos st; startDragPos := startDragPos st;
     isPaused := isPaused st; starImagesLength := n;
     imagesLoaded := true |}.

Definition softeningFactor : R := 5.

(** *** The physics update of [draw] *)

Section Physics.

(** [const G = gravity; const dt = timeStep]. *)
Variables G dt : R.

(** [dx * dx + dy * dy + softeningFactor * softeningFactor]. *)
Definition distSq (star otherStar : Star) : R :=
  let dx := x otherStar - x star in
  let dy := y otherStar - y star in
  dx * dx + dy * dy + softeningFactor * softeningFactor.

(** [(G * star.mass * otherStar.mass) / distSq]. *)
Definition force (star otherStar : Star) : R :=
  (G * mass star * mass otherStar) / distSq star otherStar.

(** The force one other star contributes: [(forceX, forceY)]. *)
Definition pairForce (star otherStar : Star) : R * R :=
  let dx := x otherStar - x star in
  let dy := y otherStar - y star in
  let dist := sqrt (distSq star otherStar) in
  (force star otherStar * (dx / dist), force star otherStar * (dy / dist)).

(** One round of [currentStars.forEach(otherStar => ...)]: the early
    [return] on equal ids, else [netForceX += forceX; netForceY += forceY]. *)
Definition accumulate (star : Star) (net : R * R) (otherStar : Star) : R * R :=
  if Js.eqb (id star) (id otherStar) then net
  else (fst net + fst (pairForce star otherStar),
        snd net + snd (pairForce star otherStar)).

(** [netForceX], [netForceY] after the whole [forEach], from [0], [0]. *)
Definition netForce (currentStars : list Star) (star : Star) : R * R :=
  fold_left (accumulate star) currentStars (0, 0).

(** The callback of [currentStars.map]: [{ ...star, x, y, vx, vy }]. *)
Definition updateStar (currentStars : list Star) (star : Star) : Star :=
  let netForceX := fst (netForce currentStars star) in
  let netForceY := snd (netForce currentStars star) in
  let vx' := vx star + (netForceX / mass star) * dt in
  let vy' := vy star + (netForceY / mass star) * dt in
  let x' := x star + vx' * dt in
  let y' := y star + vy' * dt in
  {| id := id star; x := x'; y := y'; vx := vx'; vy := vy';
     mass := mass star; imageIndex := imageIndex star |}.

(** The functional update handed to [setStars]. *)
Definition physicsStep (currentStars : list Star) : list Star :=
  map (updateStar currentStars) currentStars.

End Physics.

(** One animation frame.  Painting the canvas changes no state; the
    physics update runs [if (!isPaused)]. *)
Definition draw (props : Props) (st : State) : State :=
  if isPaused st then st
  else set_stars (physicsStep (gravity props) (timeStep props)) st.

(** [n] consecutive frames. *)
Fixpoint frames (props : Props) (n : nat) (st : State) : State :=
  match n with
  | O => st
  | S k => frames props k (draw props st)
  end.

(** *** Pointer gestures

    A pointer event carries the point in canvas coordinates
    ([event.clientX - rect.left], [event.clientY - rect.top]).  A handler
    that creates a star also receives [now], the result of its one call of
    [Date.now()], and [random], the result of its one call of
    [Math.random()]. *)

(** [imagesLoaded ? Math.floor(Math.random() * starImages.length) : undefined]. *)
Definition randomImageIndex (st : State) (random : R) : option Z :=
  if imagesLoaded st
  then Some (Js.floor (random * IZR (starImagesLength st)))
  else None.

Definition handleMouseDown (st : State) (px py : R) : State :=
  set_startDragPos (Some (px, py))
    (set_lastMousePos (Some (px, py))
      (set_isDragging true st)).

(** The star [handleMouseMove] creates for the segment [(dx, dy)] of
    length [dist] that ends in [(currentX, currentY)]. *)
Definition dragStar (props : Props) (st : State) (currentX currentY dx dy dist : R)
    (now random : R) : Star :=
  let dragSpeed := 0.1 in
  let tangentialVx := - dy / dist * dragSpeed * dist in
  let tangentialVy := dx / dist * dragSpeed * dist in
  {| id := now; x := currentX; y := currentY;
     vx := tangentialVx; vy := tangentialVy;
     mass := defaultMass props;
     imageIndex := randomImageIndex st random |}.

Definition handleMouseMove (props : Props) (st : State) (currentX currentY : R)
    (now random : R) : State :=
  if negb (isDragging st) then st
  else
    match lastMousePos st with
    | Some (lastX, lastY) =>
        let dx := currentX - lastX in
        let dy := currentY - lastY in
        let dist := sqrt (dx * dx + dy * dy) in
        if Js.gtb dist 15 then
          let newStar := dragStar props st currentX currentY dx dy dist now random in
          set_lastMousePos (Some (currentX, currentY))
            (set_stars (fun prevStars => prevStars ++ [newStar]) st)
        else st
    | None => st
    end.

(** The star [handleMouseUp] creates for a click that ends in [(endX, endY)]. *)
Definition clickStar (props : Props) (st : State) (endX endY : R)
    (now random : R) : Star :=
  {| id := now; x := endX; y := endY; vx := 0; vy := 0;
     mass := defaultMass props;
     imageIndex := randomImageIndex st random |}.

Definition handleMouseUp (props : Props) (st : State) (endX endY : R)
    (now random : R) : State :=
  if negb (isDragging st) then st
  else
    match startDragPos st with
    | None => st
    | Some (startX, startY) =>
        let dx := endX - startX in
        let dy := endY - startY in
        let distSq := dx * dx + dy * dy in
        let clickThresholdSq := 25 in
        let st' :=
          if Js.ltb distSq clickThresholdSq
          then set_stars (fun prevStars =>
                 prevStars ++ [clickStar props st endX endY now random]) st
          else st in
        set_startDragPos None (set_lastMousePos None (set_isDragging false st'))
    end.

Definition handleMouseLeave (st : State) : State :=
  if isDragging st
  then set_lastMousePos None (set_isDragging false st)
  else st.

(** *** The imperative handle *)

Definition internalTogglePause (st : State) : State :=
  set_isPaused (negb (isPaused st)) st.

Definition internalClearStars (st : State) : State :=
  let st' := set_stars (fun _ => []) st in
  if isPaused st then set_isPaused false st' else st'.

Definition isCurrentlyPaused (st : State) : bool := isPaused st.

Definition internalAddStars (newStars : list Star) (st : State) : State :=
  set_stars (fun prevStars => prevStars ++ newStars) st.

(** *** The component as a state machine *)

Inductive Event : Type :=
| MouseDown (px py : R)
| MouseMove (px py : R) (now random : R)
| MouseUp (px py : R) (now random : R)
| MouseLeave
| Frame
| TogglePause
| ClearStars
| AddStars (newStars : list Star)
| ImagesReady (n : Z).

Definition step (props : Props) (st : State) (ev : Event) : State :=
  match ev with
  | MouseDown px py => handleMouseDown st px py
  | MouseMove px py now random => handleMouseMove props st px py now random
  | MouseUp px py now random => handleMouseUp props st px py now random
  | MouseLeave => handleMouseLeave st
  | Frame => draw props st
  | TogglePause => internalTogglePause st
  | ClearStars => internalClearStars st
  | AddStars newStars => internalAddStars newStars st
  | ImagesReady n => imagesReady n st
  end.

Definition run (props : Props) (st : State) (evs : list Event) : State :=
  fold_left (step props) evs st.

End GalaxyCanvas.

(** ** app/page.tsx: the spiral-galaxy generator *)

Module Page.

Import GalaxyCanvas.

(** How many times [Math.random()] and [Date.now()] were called so far. *)
Record Calls : Type := mkCalls {
  randomCalls : nat;
  nowCalls : nat
}.

(** A computation that may call [Math.random()] and [Date.now()]. *)
Definition Gen (A : Type) : Type := Calls -> A * Calls.

Definition ret {A : Type} (a : A) : Gen A := fun c => (a, c).

Definition bind {A B : Type} (m : Gen A) (k : A -> Gen B) : Gen B :=
  fun c => let (a, c') := m c in k a c'.

Declare Scope gen_scope.
Delimit Scope gen_scope with gen.
Notation "v <- m ;; k" := (bind m (fun v => k))
  (at level 61, m at next level, right associativity) : gen_scope.

(** [for (let i = start; ...; i++)] that runs [n] rounds on the loop's
    mutable variables [s]. *)
Fixpoint forLoop {S : Type} (n : nat) (i : Z) (body : Z -> S -> Gen S) (s : S)
    : Gen S :=
  match n with
  | O => ret s
  | Datatypes.S k => bind (body i s) (forLoop k (i + 1)%Z body)
  end.

(** [for (let i = 0; i < bound; i++)]: no round when [bound <= 0]. *)
Definition forUpTo {S : Type} (bound : Z) (body : Z -> S -> Gen S) (s : S)
    : Gen S :=
  forLoop (Z.to_nat bound) 0%Z body s.

(** [a % b] on integer operands: the sign follows the dividend. *)
Definition remainder (a b : Z) : Z := Z.rem a b.

Section Generator.

(** [numStars * bulgeFraction] as the machine multiplies.  This is the one
    product of the generator whose result is floored into a loop count,
    so that its rounding can add or remove a star: the double product of
    100 and 0.29 is 28.999999999999996 and gives 28 bulge stars, the
    exact product gives 29.  It is therefore left open: what is proved
    for every [times] holds for the rounded product, and [Rmult] is the
    exact one. *)
Variable times : R -> R -> R.

(** The result of the [k]-th call of [Math.random()] and of [Date.now()]. *)
Variable random : nat -> R.
Variable now : nat -> R.

Definition Math_random : Gen R :=
  fun c => (random (randomCalls c),
            {| randomCalls := S (randomCalls c); nowCalls := nowCalls c |}).

Definition Date_now : Gen R :=
  fun c => (now (nowCalls c),
            {| randomCalls := randomCalls c; nowCalls := S (nowCalls c) |}).

Variables centerX centerY : R.
Variables numStars numArms : Z.
Variables armTightness armSpread bulgeFraction maxRadius : R.
Variables defaultMass gravityConstant : R.
Variable starImagesLength : Z.

Definition bulgeStarsCount : Z := Js.floor (times (IZR numStars) bulgeFraction).
Definition armStarsCount : Z := (numStars - bulgeStarsCount)%Z.
Definition armOffsetAngle : R := (PI * 2) / IZR numArms.
Definition softening : R := 5.

Definition avgBulgeMass : R := defaultMass * 1.5.
Definition avgArmMass : R := defaultMass.
Definition totalBulgeMass : R := IZR bulgeStarsCount * avgBulgeMass.
Definition totalArmMass : R := IZR armStarsCount * avgArmMass.

Local Open Scope gen_scope.

(** One round of the bulge loop. *)
Definition bulgeStar (i : Z) (stars : list Star) : Gen (list Star) :=
  r1 <- Math_random ;;
  let radius := r1 * maxRadius * 0.2 in
  r2 <- Math_random ;;
  let angle := r2 * PI * 2 in
  let x := centerX + radius * cos angle in
  let y := centerY + radius * sin angle in
  r3 <- Math_random ;;
  let vx := (r3 - 0.5) * 0.1 in
  r4 <- Math_random ;;
  let vy := (r4 - 0.5) * 0.1 in
  r5 <- Math_random ;;
  let randomImageIndex := Js.floor (r5 * IZR starImagesLength) in
  t <- Date_now ;;
  r6 <- Math_random ;;
  r7 <- Math_random ;;
  ret (stars ++ [ {| id := t + r6; x := x; y := y; vx := vx; vy := vy;
                     mass := defaultMass * (1 + r7);
                     imageIndex := Some randomImageIndex |} ]).

Definition starsPerArmBase : Z := Js.floor (IZR armStarsCount / IZR numArms).

Definition currentArmAngleIncrement : R :=
  (PI * 2) / (IZR numStars / IZR numArms) * (armTightness / 15).

(** [spiralAngle] of the [i]-th star of an arm of [starsInThisArm] stars. *)
Definition spiralAngle (starsInThisArm i : Z) : R :=
  let effectiveIndex :=
    IZR i * ((IZR armStarsCount / IZR numArms) / IZR starsInThisArm) in
  effectiveIndex * currentArmAngleIncrement.

(** [idealRadius] of that star. *)
Definition idealRadius (starsInThisArm i : Z) : R :=
  armTightness * exp (0.1 * spiralAngle starsInThisArm i).

(** One round of the inner loop of an arm.  [orbitalSpeed] is the real
    square root when [gravityConstant * enclosedMass >= 0], and
    [idealRadius / maxRadius] the real quotient when [maxRadius] is not 0;
    the code gives NaN otherwise. *)
Definition armStar (baseArmAngle : R) (starsInThisArm : Z) (i : Z)
    (stars : list Star) : Gen (list Star) :=
  let spiralAngle := spiralAngle starsInThisArm i in
  let idealRadius := idealRadius starsInThisArm i in
  if Js.gtb idealRadius maxRadius then ret stars
  else
    let spreadAngle := baseArmAngle + spiralAngle in
    r1 <- Math_random ;;
    let spreadRadius := idealRadius + (r1 - 0.5) * armSpread * idealRadius in
    let x := centerX + spreadRadius * cos spreadAngle in
    let y := centerY + spreadRadius * sin spreadAngle in
    let enclosedArmMass := totalArmMass * (idealRadius / maxRadius) in
    let enclosedMass := totalBulgeMass + enclosedArmMass in
    let radiusForCalc := Js.max 1 idealRadius in
    let orbitalSpeed :=
      sqrt ((gravityConstant * enclosedMass) / (radiusForCalc + softening)) in
    let relX := idealRadius * cos spreadAngle in
    let relY := idealRadius * sin spreadAngle in
    let norm := Js.or_else (sqrt (relX * relX + relY * relY)) 1 in
    let vx := orbitalSpeed * (- relY / norm) in
    let vy := orbitalSpeed * (relX / norm) in
    r2 <- Math_random ;;
    let randomImageIndex := Js.floor (r2 * IZR starImagesLength) in
    t <- Date_now ;;
    r3 <- Math_random ;;
    r4 <- Math_random ;;
    ret (stars ++ [ {| id := t + r3; x := x; y := y; vx := vx; vy := vy;
                       mass := defaultMass * (0.8 + r4 * 0.4);
                       imageIndex := Some randomImageIndex |} ]).

(** One round of the loop over the arms; the loop's mutable variables
    are [stars] and [remainingArmStars]. *)
Definition armRound (arm : Z) (s : list Star * Z) : Gen (list Star * Z) :=
  let (stars, remainingArmStars) := s in
  let baseArmAngle := IZR arm * armOffsetAngle in
  let starsInThisArm :=
    (starsPerArmBase + (if (0 <? remainingArmStars)%Z then 1 else 0))%Z in
  let remainingArmStars' :=
    if (0 <? remainingArmStars)%Z then (remainingArmStars - 1)%Z
    else remainingArmStars in
  stars' <- forUpTo starsInThisArm (armStar baseArmAngle starsInThisArm) stars ;;
  ret (stars', remainingArmStars').

(** [// Create central bulge stars]: the first loop, on the empty [stars]. *)
Definition bulgeLoop : Gen (list Star) :=
  forUpTo bulgeStarsCount bulgeStar [].

(** [// Create arm stars]: the loop over the arms, on the [stars] so far. *)
Definition armLoop (stars : list Star) : Gen (list Star) :=
  s <- forUpTo numArms armRound (stars, remainder armStarsCount numArms) ;;
  ret (fst s).

Definition generateSpiralGalaxyStars : Gen (list Star) :=
  stars <- bulgeLoop ;;
  armLoop stars.

End Generator.

(** [handleCreateSpiralGalaxy]: the one call site, with its constants.
    The double product of 800 and 0.12 is 96, as the exact one is, so the
    product is [Rmult] here. *)
Definition handleCreateSpiralGalaxy (random now : nat -> R)
    (canvasWidth canvasHeight mass gravity : R) (st : State) : State :=
  let centerX := canvasWidth / 2 in
  let centerY := canvasHeight / 2 in
  let numStars := 800%Z in
  let numArms := 5%Z in
  let armTightness := 18 in
  let armSpread := 0.25 in
  let bulgeFraction := 0.12 in
  let maxRadius := Js.min canvasWidth canvasHeight * 0.8 in
  let starImagesLength := 5%Z in
  let newStars :=
    fst (generateSpiralGalaxyStars Rmult random now centerX centerY numStars numArms
           armTightness armSpread bulgeFraction maxRadius mass gravity
           starImagesLength {| randomCalls := 0; nowCalls := 0 |}) in
  let st' := internalAddStars newStars st in
  if isPaused st then internalTogglePause st' else st'.

End Page.

(** ** Vocabulary of the properties *)

Module Spec.

Import GalaxyCanvas.

(** What a frame may not touch in a star. *)
Definition sameIdentity (s s' : Star) : Prop :=
  id s' = id s /\ mass s' = mass s /\ imageIndex s' = imageIndex s.

(** The semi-implicit Euler rule for one star under the force [F]:
    [v' = v + (F/m) dt], then [x' = x + v' dt]. *)
Definition semiImplicitEuler (dt : R) (F : R * R) (s : Star) : Star :=
  let vx' := vx s + (fst F / mass s) * dt in
  let vy' := vy s + (snd F / mass s) * dt in
  {| id := id s; x := x s + vx' * dt; y := y s + vy' * dt;
     vx := vx'; vy := vy'; mass := mass s; imageIndex := imageIndex s |}.

(** The sum of the forces the stars of [others] with another id exert on
    [s], as a sum over the list. *)
Fixpoint forceSum (G : R) (s : Star) (others : list Star) : R * R :=
  match others with
  | [] => (0, 0)
  | o :: rest =>
      let F := forceSum G s rest in
      if Js.eqb (id s) (id o) then F
      else (fst (pairForce G s o) + fst F, snd (pairForce G s o) + snd F)
  end.

(** Free motion for the time [t]: [x0 + vx t], the velocity kept. *)
Definition drift (t : R) (s : Star) : Star :=
  {| id := id s; x := x s + vx s * t; y := y s + vy s * t;
     vx := vx s; vy := vy s; mass := mass s; imageIndex := imageIndex s |}.

(** An event during which the pointer stays pressed on the canvas. *)
Definition keepsPressed (ev : Event) : bool :=
  match ev with
  | MouseDown _ _ | MouseUp _ _ _ _ | MouseLeave => false
  | _ => true
  end.

(** The ids of the stars in the store. *)
Definition ids (st : State) : list R := map id (stars st).

(** [f k + f (k + 1) + ... + f (k + n - 1)]. *)
Fixpoint sumFrom (f : Z -> nat) (n : nat) (k : Z) : nat :=
  match n with
  | O => 0%nat
  | S m => (f k + sumFrom f m (k + 1)%Z)%nat
  end.

(** An even split of [total] over [arms] arms, in the words of the
    specification: every arm gets the quotient and the first
    [total mod arms] arms get one more. *)
Definition evenShare (total arms arm : Z) : Z :=
  (total / arms + (if arm <? total mod arms then 1 else 0))%Z.

Section GalaxyCounts.

Variable times : R -> R -> R.
Variables numStars numArms : Z.
Variables armTightness bulgeFraction : R.

(** [starsInThisArm] in the round of arm [arm], in closed form. *)
Definition starsInArm (arm : Z) : Z :=
  (Page.starsPerArmBase times numStars numArms bulgeFraction
   + (if arm <? Page.remainder (Page.armStarsCount times numStars bulgeFraction) numArms
      then 1 else 0))%Z.

(** [remainingArmStars] at the start of the round of arm [arm], in
    closed form. *)
Definition remainingAt (arm : Z) : Z :=
  let r := Page.remainder (Page.armStarsCount times numStars bulgeFraction) numArms in
  Z.max (r - arm) (Z.min r 0).

(** [1] when the [i]-th star of an arm of [starsInThisArm] stars passes
    the test [idealRadius > maxRadius], [0] when it is skipped. *)
Definition kept (maxRadius : R) (starsInThisArm i : Z) : nat :=
  if Js.gtb (Page.idealRadius times numStars numArms armTightness bulgeFraction
               starsInThisArm i) maxRadius
  then 0%nat else 1%nat.

(** The stars of arm [arm] that are not skipped, and those of all arms. *)
Definition keptInArm (maxRadius : R) (arm : Z) : nat :=
  sumFrom (kept maxRadius (starsInArm arm)) (Z.to_nat (starsInArm arm)) 0.

Definition keptInArms (maxRadius : R) : nat :=
  sumFrom (keptInArm maxRadius) (Z.to_nat numArms) 0.

End GalaxyCounts.

Section EvenArms.

Variable times : R -> R -> R.
Variables random now : nat -> R.
Variables centerX centerY : R.
Variables numStars numArms : Z.
Variables armTightness armSpread bulgeFraction maxRadius : R.
Variables defaultMass gravityConstant : R.
Variable starImagesLength : Z.

(** The arm loop in the words of the specification: arm [arm], at the
    angle [arm * armOffsetAngle], runs its even share of the arm stars as
    the rounds of its inner loop; no count of remaining stars is kept. *)
Definition evenArmRound (arm : Z) (stars : list Star) : Page.Gen (list Star) :=
  let share :=
    evenShare (Page.armStarsCount times numStars bulgeFraction) numArms arm in
  Page.forUpTo share
    (Page.armStar times random now centerX centerY numStars numArms armTightness
       armSpread bulgeFraction maxRadius defaultMass gravityConstant
       starImagesLength (IZR arm * Page.armOffsetAngle numArms) share)
    stars.

Definition evenArmLoop (stars : list Star) : Page.Gen (list Star) :=
  Page.forUpTo numArms evenArmRound stars.

(** The bulge, then the arms with their even shares. *)
Definition evenGalaxy : Page.Gen (list Star) :=
  Page.bind
    (Page.bulgeLoop times random now centerX centerY numStars bulgeFraction
       maxRadius defaultMass starImagesLength)
    evenArmLoop.

End EvenArms.

End Spec.

(** ** Concrete inputs *)

Module Sample.

Import GalaxyCanvas.

(** A star of mass 10 at rest, without an image. *)
Definition starAt (i px py : R) : Star :=
  {| id := i; x := px; y := py; vx := 0; vy := 0; mass := 10;
     imageIndex := None |}.

(** A star of mass 10 that moves, without an image. *)
Definition movingStar (i px py velX velY : R) : Star :=
  {| id := i; x := px; y := py; vx := velX; vy := velY; mass := 10;
     imageIndex := None |}.

(** The sliders' defaults on a canvas of 800 by 600, and the same without
    gravity. *)
Definition defaults : Props :=
  {| width := 800; height := 600; gravity := 1; timeStep := 0.1;
     defaultMass := 10 |}.

Definition noGravity : Props :=
  {| width := 800; height := 600; gravity := 0; timeStep := 0.1;
     defaultMass := 10 |}.

(** A running simulation of two stars. *)
Definition twoStars : State :=
  {| stars := [movingStar 1 0 0 1 0; movingStar 2 30 40 0 (-1)];
     isDragging := false; lastMousePos := None; startDragPos := None;
     isPaused := false; starImagesLength := 5; imagesLoaded := true |}.

(** [Math.random()] or [Date.now()] returning [r] at every call. *)
Definition always (r : R) : nat -> R := fun _ => r.

Definition noCalls : Page.Calls :=
  {| Page.randomCalls := 0; Page.nowCalls := 0 |}.

End Sample.

(** ** GalaxyCanvas: painting and image loading *)

Module Render.

Import GalaxyCanvas.

(** What [draw] paints for one star: [context.drawImage(img, left, top,
    size, size)] with the image's index in [starImages], or the filled
    [context.arc(x, y, radius, 0, 2 PI)]. *)
Inductive Paint : Type :=
| DrawImage (image : Z) (left top w h : R)
| FillCircle (cx cy radius : R).

(** [Math.min(maxSize, baseSize + Math.sqrt(star.mass) * 0.5)]. *)
Definition spriteSize (star : Star) : R :=
  let baseSize := 15 in
  let maxSize := 30 in
  Js.min maxSize (baseSize + sqrt (mass star) * 0.5).

(** [starImages[k]] is an element of the array, hence truthy. *)
Definition hasImage (st : State) (k : Z) : bool :=
  ((0 <=? k) && (k <? starImagesLength st))%Z.

Definition fallbackCircle (star : Star) : Paint :=
  let radius := Js.max 1 (sqrt (mass star)) in
  FillCircle (x star) (y star) radius.

(** The body of [stars.forEach(star => ...)] in [draw]. *)
Definition paintStar (st : State) (star : Star) : Paint :=
  if imagesLoaded st then
    match imageIndex star with
    | Some k =>
        if hasImage st k then
          let size := spriteSize star in
          DrawImage k (x star - size / 2) (y star - size / 2) size size
        else fallbackCircle star
    | None => fallbackCircle star
    end
  else fallbackCircle star.

Definition paint (st : State) : list Paint := map (paintStar st) (stars st).

End Render.

Module Loader.

Import GalaxyCanvas.

(** [imagePaths.length]. *)
Definition imagePathsLength : Z := 5.

(** The mount effect's [loadedCount], beside the component's state.  The
    array [images] holds one element per path from the start. *)
Record Loading : Type := mkLoading {
  loadedCount : Z;
  component : State
}.

Inductive ImageEvent : Type := Loaded | Failed.

(** [img.onload] and [img.onerror]: both count, and the last one to come
    publishes the images. *)
Definition settled (l : Loading) (ev : ImageEvent) : Loading :=
  let loadedCount' := (loadedCount l + 1)%Z in
  {| loadedCount := loadedCount';
     component :=
       if (loadedCount' =? imagePathsLength)%Z
       then imagesReady imagePathsLength (component l)
       else component l |}.

Definition mounted (st : State) : Loading :=
  {| loadedCount := 0; component := st |}.

Definition settleAll (l : Loading) (evs : list ImageEvent) : Loading :=
  fold_left settled evs l.

End Loader.

(** ** app/page.tsx: the Home component *)

Module Home.

Import GalaxyCanvas.

Definition defaultGravity : R := 1.
Definition defaultTimeStep : R := 0.1.
Definition defaultMass : R := 10.
Definition NAVBAR_HEIGHT : R := 100.

(** The [useState] cells of [Home] that the simulation reads, and the
    canvas it renders. *)
Record State : Type := mkState {
  canvas : GalaxyCanvas.State;
  canvasWidth : R;
  canvasHeight : R;
  gravity : R;
  timeStep : R;
  mass : R;
  starCount : Z;
  isActuallyPaused : bool
}.

Definition initialState : State :=
  {| canvas := GalaxyCanvas.initialState;
     canvasWidth := 800; canvasHeight := 600;
     gravity := defaultGravity; timeStep := defaultTimeStep; mass := defaultMass;
     starCount := 0; isActuallyPaused := false |}.

(** The props [Home] hands to [GalaxyCanvas]. *)
Definition canvasProps (h : State) : Props :=
  {| width := canvasWidth h; height := canvasHeight h;
     GalaxyCanvas.gravity := gravity h; GalaxyCanvas.timeStep := timeStep h;
     GalaxyCanvas.defaultMass := mass h |}.

Definition set_canvas (c : GalaxyCanvas.State) (h : State) : State :=
  {| canvas := c; canvasWidth := canvasWidth h; canvasHeight := canvasHeight h;
     gravity := gravity h; timeStep := timeStep h; mass := mass h;
     starCount := starCount h; isActuallyPaused := isActuallyPaused h |}.

(** [handlePauseStateChange] and [handleStarCountChange]. *)
Definition handlePauseStateChange (paused : bool) (h : State) : State :=
  {| canvas := canvas h; canvasWidth := canvasWidth h; canvasHeight := canvasHeight h;
     gravity := gravity h; timeStep := timeStep h; mass := mass h;
     starCount := starCount h; isActuallyPaused := paused |}.

Definition handleStarCountChange (count : Z) (h : State) : State :=
  {| canvas := canvas h; canvasWidth := canvasWidth h; canvasHeight := canvasHeight h;
     gravity := gravity h; timeStep := timeStep h; mass := mass h;
     starCount := count; isActuallyPaused := isActuallyPaused h |}.

(** The canvas's effect on [stars.length]: [onStarCountChange?.(stars.length)]. *)
Definition starCountEffect (h : State) : State :=
  handleStarCountChange (Z.of_nat (length (stars (canvas h)))) h.

(** [internalTogglePause] with its [onPauseStateChange?.(nextPausedState)]. *)
Definition togglePause (h : State) : State :=
  let nextPausedState := negb (isPaused (canvas h)) in
  handlePauseStateChange nextPausedState
    (set_canvas (internalTogglePause (canvas h)) h).

(** [internalClearStars] with its notification when it was paused. *)
Definition clearStars (h : State) : State :=
  let h' := set_canvas (internalClearStars (canvas h)) h in
  if isPaused (canvas h) then handlePauseStateChange false h' else h'.

Definition addStars (newStars : list Star) (h : State) : State :=
  set_canvas (internalAddStars newStars (canvas h)) h.

Definition handleTogglePause (h : State) : State := togglePause h.
Definition handleClearStars (h : State) : State := clearStars h.

Definition handleResetParams (h : State) : State :=
  {| canvas := canvas h; canvasWidth := canvasWidth h; canvasHeight := canvasHeight h;
     gravity := defaultGravity; timeStep := defaultTimeStep; mass := defaultMass;
     starCount := starCount h; isActuallyPaused := isActuallyPaused h |}.

Definition handleGravityChange (val : R) (h : State) : State :=
  {| canvas := canvas h; canvasWidth := canvasWidth h; canvasHeight := canvasHeight h;
     gravity := val; timeStep := timeStep h; mass := mass h;
     starCount := starCount h; isActuallyPaused := isActuallyPaused h |}.

Definition handleTimeStepChange (val : R) (h : State) : State :=
  {| canvas := canvas h; canvasWidth := canvasWidth h; canvasHeight := canvasHeight h;
     gravity := gravity h; timeStep := val; mass := mass h;
     starCount := starCount h; isActuallyPaused := isActuallyPaused h |}.

Definition handleMassChange (val : R) (h : State) : State :=
  {| canvas := canvas h; canvasWidth := canvasWidth h; canvasHeight := canvasHeight h;
     gravity := gravity h; timeStep := timeStep h; mass := val;
     starCount := starCount h; isActuallyPaused := isActuallyPaused h |}.

(** [handleResize] with [window.innerWidth] and [window.innerHeight]. *)
Definition handleResize (innerWidth innerHeight : R) (h : State) : State :=
  {| canvas := canvas h; canvasWidth := innerWidth;
     canvasHeight := innerHeight - NAVBAR_HEIGHT - 10;
     gravity := gravity h; timeStep := timeStep h; mass := mass h;
     starCount := starCount h; isActuallyPaused := isActuallyPaused h |}.

(** The list [handleCreateSpiralGalaxy] generates, with its constants; the
    product of 800 and 0.12 is 96 in doubles as in the reals. *)
Definition newGalaxy (random now : nat -> R) (h : State) : list Star :=
  let centerX := canvasWidth h / 2 in
  let centerY := canvasHeight h / 2 in
  let numStars := 800%Z in
  let numArms := 5%Z in
  let armTightness := 18 in
  let armSpread := 0.25 in
  let bulgeFraction := 0.12 in
  let maxRadius := Js.min (canvasWidth h) (canvasHeight h) * 0.8 in
  let starImagesLength := 5%Z in
  fst (Page.generateSpiralGalaxyStars Rmult random now centerX centerY numStars numArms
         armTightness armSpread bulgeFraction maxRadius (mass h) (gravity h)
         starImagesLength
         {| Page.randomCalls := 0; Page.nowCalls := 0 |}).

Definition handleCreateSpiralGalaxy (random now : nat -> R) (h : State) : State :=
  let h' := addStars (newGalaxy random now h) h in
  if isActuallyPaused h then handleTogglePause h' else h'.

(** What happens to the page: an event of the canvas itself (pointer,
    frame, images), a button, a slider or a resize. *)
Inductive Event : Type :=
| Canvas (ev : GalaxyCanvas.Event)
| ClickTogglePause
| ClickClearStars
| ClickCreateGalaxy (random now : nat -> R)
| ClickResetParams
| SlideGravity (val : R)
| SlideTimeStep (val : R)
| SlideMass (val : R)
| Resize (innerWidth innerHeight : R).

(** Events the canvas receives from the browser, not through its handle. *)
Definition fromBrowser (ev : GalaxyCanvas.Event) : bool :=
  match ev with
  | TogglePause | ClearStars | AddStars _ => false
  | _ => true
  end.

Definition handle (h : State) (ev : Event) : State :=
  match ev with
  | Canvas ev =>
      if fromBrowser ev
      then set_canvas (GalaxyCanvas.step (canvasProps h) (canvas h) ev) h
      else h
  | ClickTogglePause => handleTogglePause h
  | ClickClearStars => handleClearStars h
  | ClickCreateGalaxy random now => handleCreateSpiralGalaxy random now h
  | ClickResetParams => handleResetParams h
  | SlideGravity val => handleGravityChange val h
  | SlideTimeStep val => handleTimeStepChange val h
  | SlideMass val => handleMassChange val h
  | Resize innerWidth innerHeight => handleResize innerWidth innerHeight h
  end.

(** One event, then the effects of the render that follows it. *)
Definition step (h : State) (ev : Event) : State := starCountEffect (handle h ev).

Definition run (h : State) (evs : list Event) : State := fold_left step evs h.

End Home.

(** ** Vocabulary of the further properties *)

Module Notions.

Import GalaxyCanvas.

(** [f s1 + f s2 + ...] over the stars of a list. *)
Fixpoint total (f : Star -> R) (l : list Star) : R :=
  match l with
  | [] => 0
  | s :: rest => f s + total f rest
  end.

Definition momentumX (l : list Star) : R := total (fun s => mass s * vx s) l.
Definition momentumY (l : list Star) : R := total (fun s => mass s * vy s) l.

(** Mass times position, summed: the centre of mass times the total mass. *)
Definition massMomentX (l : list Star) : R := total (fun s => mass s * x s) l.
Definition massMomentY (l : list Star) : R := total (fun s => mass s * y s) l.

(** What the star [o] contributes to the net force on [s]: nothing when
    the ids are equal. *)
Definition pull (G : R) (s o : Star) : R * R :=
  if Js.eqb (id s) (id o) then (0, 0) else pairForce G s o.

(** The star moved by [(cx, cy)]. *)
Definition translate (cx cy : R) (s : Star) : Star :=
  {| id := id s; x := x s + cx; y := y s + cy; vx := vx s; vy := vy s;
     mass := mass s; imageIndex := imageIndex s |}.

(** [b] is the mirror image of [a] about the origin, with the same mass. *)
Definition mirrored (a b : Star) : Prop :=
  mass b = mass a
  /\ x b = - x a /\ y b = - y a /\ vx b = - vx a /\ vy b = - vy a.

(** Euclidean distance and the length of the polyline from [p] through
    the points of [ps]. *)
Definition dist (p q : R * R) : R :=
  sqrt ((fst q - fst p) * (fst q - fst p) + (snd q - snd p) * (snd q - snd p)).

Fixpoint pathLength (p : R * R) (ps : list (R * R)) : R :=
  match ps with
  | [] => 0
  | q :: rest => dist p q + pathLength q rest
  end.

(** A move event to the point [fst m] with the results [snd m] of
    [Date.now()] and [Math.random()]. *)
Definition moveTo (m : (R * R) * (R * R)) : Event :=
  MouseMove (fst (fst m)) (snd (fst m)) (fst (snd m)) (snd (snd m)).

(** A pointer event that is not a press. *)
Definition notAPress (ev : Event) : bool :=
  match ev with
  | MouseMove _ _ _ _ | MouseUp _ _ _ _ | MouseLeave => true
  | _ => false
  end.

Definition isClear (ev : Event) : bool :=
  match ev with
  | ClearStars => true
  | _ => false
  end.

(** An event that brings only stars of positive mass. *)
Definition bringsPositiveMass (ev : Event) : Prop :=
  match ev with
  | AddStars newStars => Forall (fun s => 0 < mass s) newStars
  | _ => True
  end.

(** [Math.random()] returns a number in [[0, 1)]. *)
Definition unitInterval (random : nat -> R) : Prop :=
  forall k, 0 <= random k < 1.

(** The star has an image index, and it is below [n]. *)
Definition indexBelow (n : Z) (s : Star) : Prop :=
  exists k, imageIndex s = Some k /\ (0 <= k < n)%Z.

(** The star lies within [r] of [(cx, cy)]. *)
Definition within (cx cy r : R) (s : Star) : Prop :=
  (x s - cx) * (x s - cx) + (y s - cy) * (y s - cy) <= r * r.

(** The velocity is perpendicular to the offset from [(cx, cy)], and turns
    counter-clockwise around it. *)
Definition tangential (cx cy : R) (s : Star) : Prop :=
  (x s - cx) * vx s + (y s - cy) * vy s = 0.

Definition counterClockwise (cx cy : R) (s : Star) : Prop :=
  0 <= (x s - cx) * vy s - (y s - cy) * vx s.

(** The mass lies in [[lo, hi)]; both velocity components are at most [v]
    in size. *)
Definition massBetween (lo hi : R) (s : Star) : Prop := lo <= mass s < hi.

Definition slowerThan (v : R) (s : Star) : Prop :=
  Rabs (vx s) <= v /\ Rabs (vy s) <= v.

(** The square of the speed is at most [bound]. *)
Definition speedSqAtMost (bound : R) (s : Star) : Prop :=
  vx s * vx s + vy s * vy s <= bound.

(** What the generator gives every bulge star and every arm star. *)
Definition bulgeShape (centerX centerY maxRadius defaultMass : R)
    (starImagesLength : Z) (s : Star) : Prop :=
  within centerX centerY (0.2 * maxRadius) s
  /\ slowerThan 0.05 s
  /\ massBetween defaultMass (2 * defaultMass) s
  /\ indexBelow starImagesLength s.

Definition armShape (centerX centerY armSpread maxRadius defaultMass : R)
    (starImagesLength : Z) (s : Star) : Prop :=
  tangential centerX centerY s
  /\ counterClockwise centerX centerY s
  /\ within centerX centerY (maxRadius * (1 + armSpread / 2)) s
  /\ massBetween (0.8 * defaultMass) (1.2 * defaultMass) s
  /\ indexBelow starImagesLength s.

(** The page shows what the canvas holds: the pause label follows
    [isPaused] and the counter the number of stars. *)
Definition inSync (h : Home.State) : Prop :=
  Home.isActuallyPaused h = isPaused (Home.canvas h)
  /\ Home.starCount h = Z.of_nat (length (stars (Home.canvas h))).

End Notions.

(** ** Further concrete inputs *)

Module Cases.

Import GalaxyCanvas.

(** Two stars of mass 10 that mirror each other about the origin. *)
Definition mirrorPair : State :=
  {| stars := [Sample.movingStar 1 30 40 0 (-1); Sample.movingStar 2 (-30) (-40) 0 1];
     isDragging := false; lastMousePos := None; startDragPos := None;
     isPaused := false; starImagesLength := 5; imagesLoaded := true |}.

(** A running simulation of one moving star. *)
Definition loneStar : State :=
  {| stars := [Sample.movingStar 1 0 0 1 2];
     isDragging := false; lastMousePos := None; startDragPos := None;
     isPaused := false; starImagesLength := 5; imagesLoaded := true |}.

(** A star of mass 16 with the third image. *)
Definition spriteStar : Star :=
  {| id := 3; x := 100; y := 50; vx := 0; vy := 0; mass := 16;
     imageIndex := Some 2%Z |}.

(** A click at the origin followed by a frame. *)
Definition clickThenFrame : list Event :=
  [MouseDown 0 0; MouseUp 0 0 7 0; Frame].

(** Moves and a release without a press. *)
Definition strayPointer : list Event :=
  [MouseMove 5 5 0 0; MouseUp 5 5 0 0; MouseLeave].

(** Three images load and two fail. *)
Definition threeLoadTwoFail : list Loader.ImageEvent :=
  [Loader.Loaded; Loader.Failed; Loader.Loaded; Loader.Loaded; Loader.Failed].

End Cases.

(** * Properties *)

(** ** Comparisons of numbers *)

Lemma js_ltb_true (a b : R) : a < b -> Js.ltb a b = true.
Proof. intros H; unfold Js.ltb; destruct (Rlt_dec a b); [reflexivity | contradiction]. Qed.

Lemma js_ltb_false (a b : R) : b <= a -> Js.ltb a b = false.
Proof. intros H; unfold Js.ltb; destruct (Rlt_dec a b); [lra | reflexivity]. Qed.

Lemma js_gtb_true (a b : R) : b < a -> Js.gtb a b = true.
Proof. apply js_ltb_true. Qed.

Lemma js_gtb_false (a b : R) : a <= b -> Js.gtb a b = false.
Proof. apply js_ltb_false. Qed.

Lemma js_eqb_eq (a b : R) : Js.eqb a b = true <-> a = b.
Proof.
  unfold Js.eqb; destruct (Req_dec_T a b); split; intros; congruence.
Qed.

Lemma js_eqb_refl (a : R) : Js.eqb a a = true.
Proof. now apply js_eqb_eq. Qed.

(** ** The simulation loop *)

Section Loop.

Import GalaxyCanvas Spec.

Lemma updateStar_sameIdentity G dt l s : sameIdentity s (updateStar G dt l s).
Proof. repeat split. Qed.

Lemma physicsStep_sameIdentity G dt l0 l :
  Forall2 sameIdentity l (map (updateStar G dt l0) l).
Proof.
  induction l as [|s l IH]; simpl; constructor; auto using updateStar_sameIdentity.
Qed.

Lemma Forall2_sameIdentity_refl l : Forall2 sameIdentity l l.
Proof. induction l; constructor; auto; repeat split. Qed.

Lemma draw_paused props st : isPaused st = true -> draw props st = st.
Proof. intros H; unfold draw; now rewrite H. Qed.

Lemma draw_running props st :
  isPaused st = false ->
  draw props st = set_stars (physicsStep (gravity props) (timeStep props)) st.
Proof. intros H; unfold draw; now rewrite H. Qed.

(** C10. A frame keeps the number of stars and, star by star in store
    order, the id, the mass and the image index; it touches no other cell
    of the component's state; and a frame of a paused simulation changes
    nothing at all. *)
Theorem draw_frame_effect (props : Props) (st : State) :
  length (stars (draw props st)) = length (stars st)
  /\ Forall2 sameIdentity (stars st) (stars (draw props st))
  /\ isDragging (draw props st) = isDragging st
  /\ lastMousePos (draw props st) = lastMousePos st
  /\ startDragPos (draw props st) = startDragPos st
  /\ isPaused (draw props st) = isPaused st
  /\ (isPaused st = true -> draw props st = st).
Proof.
  unfold draw; destruct (isPaused st) eqn:Hp; simpl.
  - repeat split; auto using Forall2_sameIdentity_refl.
  - unfold physicsStep; rewrite length_map.
    repeat split; auto using physicsStep_sameIdentity. discriminate.
Qed.

(** C8. After [clearStars], whatever the state before, there is no star
    and the simulation is not paused. *)
Theorem clearStars_empty_and_running (st : State) :
  stars (internalClearStars st) = []
  /\ isCurrentlyPaused (internalClearStars st) = false.
Proof.
  unfold internalClearStars, isCurrentlyPaused.
  destruct (isPaused st) eqn:Hp; simpl; auto.
Qed.

End Loop.

(** ** Pointer gestures *)

Section Gestures.

Import GalaxyCanvas Spec.

Variable props : Props.

Lemma step_keepsPressed st ev :
  keepsPressed ev = true ->
  isDragging (step props st ev) = isDragging st
  /\ startDragPos (step props st ev) = startDragPos st.
Proof.
  destruct ev; simpl; try discriminate; intros _.
  - unfold handleMouseMove.
    destruct (isDragging st) eqn:Hd; simpl; [|now rewrite Hd].
    destruct (lastMousePos st) as [[lx ly]|]; [|now rewrite Hd].
    destruct (Js.gtb _ 15); simpl; now rewrite ?Hd.
  - unfold draw; destruct (isPaused st); auto.
  - auto.
  - unfold internalClearStars; destruct (isPaused st); auto.
  - auto.
  - auto.
Qed.

(** While the pointer stays pressed the gesture's start point is kept. *)
Lemma run_keepsPressed evs : forall st,
  Forall (fun ev => keepsPressed ev = true) evs ->
  isDragging (run props st evs) = isDragging st
  /\ startDragPos (run props st evs) = startDragPos st.
Proof.
  induction evs as [|ev evs IH]; intros st Hall; [now split|].
  inversion Hall as [|? ? Hev Hrest]; subst.
  unfold run in *; simpl.
  destruct (IH (step props st ev) Hrest) as [Hd Hs].
  destruct (step_keepsPressed st ev Hev) as [Hd' Hs'].
  split; congruence.
Qed.

Lemma handleMouseUp_dragging st startX startY endX endY now random :
  isDragging st = true ->
  startDragPos st = Some (startX, startY) ->
  let dx := endX - startX in
  let dy := endY - startY in
  (dx * dx + dy * dy < 25 ->
     stars (handleMouseUp props st endX endY now random)
     = stars st ++ [clickStar props st endX endY now random])
  /\ (25 <= dx * dx + dy * dy ->
     stars (handleMouseUp props st endX endY now random) = stars st)
  /\ isDragging (handleMouseUp props st endX endY now random) = false
  /\ lastMousePos (handleMouseUp props st endX endY now random) = None
  /\ startDragPos (handleMouseUp props st endX endY now random) = None.
Proof.
  intros Hd Hs dx dy. unfold handleMouseUp. rewrite Hd, Hs. simpl.
  fold dx dy.
  repeat split.
  - intros Hlt. now rewrite js_ltb_true.
  - intros Hge. now rewrite js_ltb_false.
Qed.

(** C6. A gesture is a press at [(startX, startY)], any events during
    which the pointer stays pressed, and a release at [(endX, endY)].  If
    the squared distance between the two points is below 25 the release
    appends exactly one star, at the release point and at rest; if it is
    25 or more the release appends nothing; either way the release leaves
    the dragging state and forgets both tracked points. *)
Theorem release_click_or_drag (st : State) (startX startY : R)
    (during : list Event) (endX endY now random : R) :
  Forall (fun ev => keepsPressed ev = true) during ->
  let pressed := run props st (MouseDown startX startY :: during) in
  let released := step props pressed (MouseUp endX endY now random) in
  let dx := endX - startX in
  let dy := endY - startY in
  (dx * dx + dy * dy < 25 ->
     exists newStar,
       stars released = stars pressed ++ [newStar]
       /\ x newStar = endX /\ y newStar = endY
       /\ vx newStar = 0 /\ vy newStar = 0)
  /\ (25 <= dx * dx + dy * dy -> stars released = stars pressed)
  /\ isDragging released = false
  /\ lastMousePos released = None
  /\ startDragPos released = None.
Proof.
  intros Hduring pressed released dx dy.
  assert (Hd : isDragging pressed = true /\ startDragPos pressed = Some (startX, startY)).
  { unfold pressed, run; simpl.
    destruct (run_keepsPressed during (handleMouseDown st startX startY) Hduring)
      as [Hd Hs].
    unfold run in Hd, Hs. now rewrite Hd, Hs. }
  destruct Hd as [Hd Hs].
  destruct (handleMouseUp_dragging pressed startX startY endX endY now random Hd Hs)
    as (Hclick & Hdrag & H1 & H2 & H3).
  unfold released; simpl. repeat split; auto.
  intros Hlt. eexists; split; [apply Hclick; exact Hlt|]. now simpl.
Qed.

End Gestures.

Section Moves.

Import GalaxyCanvas Spec.

Variable props : Props.

Lemma dragStar_velocity st currentX currentY dx dy now random :
  let dist := sqrt (dx * dx + dy * dy) in
  let s := dragStar props st currentX currentY dx dy dist now random in
  0 < dist -> vx s = - (0.1 * dy) /\ vy s = 0.1 * dx.
Proof.
  intros dist s Hpos; unfold s, dragStar; simpl; split; field; lra.
Qed.

(** A move in a dragging state that tracks a last point. *)
Lemma handleMouseMove_dragging (st : State)
    (lastX lastY currentX currentY now random : R) :
  isDragging st = true ->
  lastMousePos st = Some (lastX, lastY) ->
  let dx := currentX - lastX in
  let dy := currentY - lastY in
  let dist := sqrt (dx * dx + dy * dy) in
  let moved := handleMouseMove props st currentX currentY now random in
  (15 < dist ->
     exists newStar,
       stars moved = stars st ++ [newStar]
       /\ x newStar = currentX /\ y newStar = currentY
       /\ vx newStar * dx + vy newStar * dy = 0
       /\ sqrt (vx newStar * vx newStar + vy newStar * vy newStar) = 0.1 * dist
       /\ lastMousePos moved = Some (currentX, currentY))
  /\ (dist <= 15 -> moved = st).
Proof.
  intros Hd Hl dx dy dist moved.
  unfold moved, handleMouseMove. rewrite Hd, Hl. simpl. fold dx dy dist.
  split.
  - intros Hfar. rewrite js_gtb_true by exact Hfar.
    eexists; split; [reflexivity|].
    destruct (dragStar_velocity st currentX currentY dx dy now random) as [Hvx Hvy];
      [fold dist; lra|].
    fold dist in Hvx, Hvy.
    repeat split; try reflexivity.
    + rewrite Hvx, Hvy. ring.
    + rewrite Hvx, Hvy.
      assert (Hsq : dist * dist = dx * dx + dy * dy).
      { unfold dist. apply sqrt_sqrt. nra. }
      replace (- (0.1 * dy) * - (0.1 * dy) + 0.1 * dx * (0.1 * dx))
        with ((0.1 * dist) * (0.1 * dist)) by (rewrite <- (Rmult_1_l (dx * dx + dy * dy)) in Hsq; nra).
      apply sqrt_square. lra.
  - intros Hnear. now rewrite js_gtb_false.
Qed.

(** Every handler keeps: while dragging, a last point is tracked. *)
Lemma step_tracks_lastMousePos st ev :
  (isDragging st = true -> lastMousePos st <> None) ->
  isDragging (step props st ev) = true -> lastMousePos (step props st ev) <> None.
Proof.
  intros Hinv. destruct ev; simpl.
  - discriminate.
  - unfold handleMouseMove.
    destruct (isDragging st) eqn:Hd; simpl; [|congruence].
    destruct (lastMousePos st) as [[lx ly]|] eqn:Hl; [|exfalso; now apply Hinv].
    destruct (Js.gtb _ 15); simpl; [discriminate|]. rewrite Hl. discriminate.
  - unfold handleMouseUp.
    destruct (isDragging st) eqn:Hd; simpl; [|congruence].
    destruct (startDragPos st) as [[sx sy]|]; simpl; [discriminate|].
    rewrite Hd. exact Hinv.
  - unfold handleMouseLeave. destruct (isDragging st) eqn:Hd; simpl; congruence.
  - unfold draw. destruct (isPaused st); simpl; exact Hinv.
  - exact Hinv.
  - unfold internalClearStars. destruct (isPaused st); simpl; exact Hinv.
  - exact Hinv.
  - exact Hinv.
Qed.

Lemma run_tracks_lastMousePos evs : forall st,
  (isDragging st = true -> lastMousePos st <> None) ->
  isDragging (run props st evs) = true -> lastMousePos (run props st evs) <> None.
Proof.
  induction evs as [|ev evs IH]; intros st Hinv; [exact Hinv|].
  unfold run in *; simpl. apply IH. now apply step_tracks_lastMousePos.
Qed.

(** C7. A move event in a state the component reaches while dragging:
    [lastMousePos] holds a point [(lastX, lastY)], at distance [dist] from
    the current point [(currentX, currentY)].  If [dist > 15] the move
    appends exactly one star, at the current point, whose velocity has dot
    product zero with the drag vector and magnitude [0.1 * dist]
    ([dragSpeed = 0.1]), and [lastMousePos] becomes the current point.  If
    [dist <= 15] the state, [lastMousePos] included, is unchanged. *)
Theorem move_spawns_tangential_star (evs : list Event)
    (currentX currentY now random : R) :
  let st := run props initialState evs in
  isDragging st = true ->
  exists lastX lastY,
    lastMousePos st = Some (lastX, lastY)
    /\ let dx := currentX - lastX in
       let dy := currentY - lastY in
       let dist := sqrt (dx * dx + dy * dy) in
       let moved := handleMouseMove props st currentX currentY now random in
       (15 < dist ->
          exists newStar,
            stars moved = stars st ++ [newStar]
            /\ x newStar = currentX /\ y newStar = currentY
            /\ vx newStar * dx + vy newStar * dy = 0
            /\ sqrt (vx newStar * vx newStar + vy newStar * vy newStar) = 0.1 * dist
            /\ lastMousePos moved = Some (currentX, currentY))
       /\ (dist <= 15 -> moved = st).
Proof.
  intros st Hd.
  assert (Hl : lastMousePos st <> None).
  { apply run_tracks_lastMousePos; [discriminate|exact Hd]. }
  destruct (lastMousePos st) as [[lastX lastY]|] eqn:Hlast; [|congruence].
  exists lastX, lastY. split; [reflexivity|].
  apply handleMouseMove_dragging; assumption.
Qed.

End Moves.

(** ** The force solver *)

Section Forces.

Import GalaxyCanvas Spec.

Lemma softeningFactor_sq : softeningFactor * softeningFactor = 25.
Proof. unfold softeningFactor; ring. Qed.

Lemma square_nonneg (r : R) : 0 <= r * r.
Proof. nra. Qed.

Lemma distSq_lower (a b : Star) : 25 <= distSq a b.
Proof.
  unfold distSq; rewrite softeningFactor_sq; cbv zeta.
  pose proof (square_nonneg (x b - x a)).
  pose proof (square_nonneg (y b - y a)). lra.
Qed.

Lemma distSq_pos (a b : Star) : 0 < distSq a b.
Proof. pose proof (distSq_lower a b); lra. Qed.

Lemma force_abs (G : R) (a b : Star) :
  0 < mass a -> 0 < mass b ->
  Rabs (force G a b) = Rabs G * mass a * mass b / distSq a b.
Proof.
  intros Ha Hb. pose proof (distSq_pos a b) as HD.
  unfold force, Rdiv.
  rewrite !Rabs_mult, (Rabs_pos_eq (mass a)), (Rabs_pos_eq (mass b)) by lra.
  rewrite (Rabs_pos_eq (/ distSq a b)); [reflexivity|].
  left; now apply Rinv_0_lt_compat.
Qed.

Lemma over_distSq_le (n : R) (a b : Star) : 0 <= n -> n / distSq a b <= n / 25.
Proof.
  intros Hn. pose proof (distSq_lower a b) as HD.
  unfold Rdiv. apply Rmult_le_compat_l; [exact Hn|].
  apply Rinv_le_contravar; lra.
Qed.

(** The length of the force vector is the magnitude [force], shortened
    by the softening. *)
Lemma pairForce_norm_le (G : R) (a b : Star) :
  sqrt (fst (pairForce G a b) * fst (pairForce G a b)
        + snd (pairForce G a b) * snd (pairForce G a b))
  <= Rabs (force G a b).
Proof.
  pose proof (distSq_lower a b) as HD.
  unfold pairForce; simpl.
  set (dx := x b - x a). set (dy := y b - y a).
  set (f := force G a b). set (D := distSq a b) in *.
  assert (Hs : sqrt D * sqrt D = D) by (apply sqrt_sqrt; lra).
  assert (Hs0 : 0 < sqrt D) by (apply sqrt_lt_R0; lra).
  assert (HDxy : D = dx * dx + dy * dy + 25).
  { unfold D, distSq. rewrite softeningFactor_sq. reflexivity. }
  rewrite <- sqrt_Rsqr_abs. apply sqrt_le_1_alt. unfold Rsqr.
  replace (f * (dx / sqrt D) * (f * (dx / sqrt D))
           + f * (dy / sqrt D) * (f * (dy / sqrt D)))
    with (f * f * ((dx * dx + dy * dy) / (sqrt D * sqrt D)))
    by (field; lra).
  rewrite Hs.
  assert (Hr : (dx * dx + dy * dy) / D <= 1).
  { apply (Rmult_le_reg_r D); [lra|].
    unfold Rdiv. rewrite Rmult_assoc, Rinv_l by lra. nra. }
  assert (Hr0 : 0 <= (dx * dx + dy * dy) / D).
  { apply Rmult_le_pos; [nra|]. left; apply Rinv_0_lt_compat; lra. }
  nra.
Qed.

(** C2. For two stars of positive mass, wherever they are (the same
    point included): the denominator [distSq] is at least
    [softeningFactor^2 = 25 > 0], so it is not zero; the magnitude of
    [force] is at most [|G| m1 m2 / softeningFactor^2], which for
    [G >= 0] reads [0 <= force <= G m1 m2 / softeningFactor^2]; and the
    force vector [(forceX, forceY)] is no longer than that bound. *)
Theorem softened_force_bounded (G : R) (a b : Star) :
  0 < mass a -> 0 < mass b ->
  let bound := Rabs G * mass a * mass b / (softeningFactor * softeningFactor) in
  softeningFactor * softeningFactor <= distSq a b
  /\ 0 < softeningFactor * softeningFactor
  /\ distSq a b <> 0
  /\ Rabs (force G a b) <= bound
  /\ (0 <= G ->
      0 <= force G a b
        <= G * mass a * mass b / (softeningFactor * softeningFactor))
  /\ sqrt (fst (pairForce G a b) * fst (pairForce G a b)
           + snd (pairForce G a b) * snd (pairForce G a b)) <= bound.
Proof.
  intros Ha Hb bound. unfold bound. rewrite softeningFactor_sq.
  pose proof (distSq_lower a b) as HD.
  assert (Hn : 0 <= Rabs G * mass a * mass b).
  { pose proof (Rabs_pos G). apply Rmult_le_pos; [apply Rmult_le_pos|]; lra. }
  assert (Habs : Rabs (force G a b) <= Rabs G * mass a * mass b / 25).
  { rewrite force_abs by assumption. now apply over_distSq_le. }
  split; [lra|]. split; [lra|]. split; [lra|]. split; [exact Habs|]. split.
  - intros HG. split.
    + unfold force.
      apply Rmult_le_pos; [|left; apply Rinv_0_lt_compat; lra].
      apply Rmult_le_pos; [apply Rmult_le_pos|]; lra.
    + rewrite (Rabs_pos_eq G) in Habs by exact HG.
      eapply Rle_trans; [apply Rle_abs|exact Habs].
  - eapply Rle_trans; [apply pairForce_norm_le|exact Habs].
Qed.

End Forces.

(** ** The integrator *)

Section Integrator.

Import GalaxyCanvas Spec.

Variables G dt : R.

Lemma pair_eq (a b c d : R) : a = c -> b = d -> (a, b) = (c, d).
Proof. now intros -> ->. Qed.

(** The [forEach] loop adds [forceSum] to its accumulator. *)
Lemma fold_accumulate (s : Star) (l : list Star) : forall net,
  fold_left (accumulate G s) l net
  = (fst net + fst (forceSum G s l), snd net + snd (forceSum G s l)).
Proof.
  induction l as [|o l IH]; intros [nx ny]; simpl.
  - apply pair_eq; ring.
  - rewrite IH. unfold accumulate.
    destruct (Js.eqb (id s) (id o)); simpl; apply pair_eq; ring.
Qed.

Lemma netForce_forceSum (l : list Star) (s : Star) :
  netForce G l s = forceSum G s l.
Proof.
  unfold netForce. rewrite fold_accumulate. simpl.
  destruct (forceSum G s l) as [fx fy]; simpl. apply pair_eq; ring.
Qed.

(** The sum of the forces does not depend on the order of the stars. *)
Lemma forceSum_Permutation (s : Star) (l l' : list Star) :
  Permutation l l' -> forceSum G s l = forceSum G s l'.
Proof.
  induction 1 as [|o l l' _ IH|o1 o2 l|l l' l'' _ IH1 _ IH2]; simpl.
  - reflexivity.
  - now rewrite IH.
  - destruct (Js.eqb (id s) (id o1)), (Js.eqb (id s) (id o2)); simpl;
      try reflexivity.
    apply pair_eq; ring.
  - now rewrite IH1.
Qed.

Lemma netForce_Permutation (s : Star) (l l' : list Star) :
  Permutation l l' -> netForce G l s = netForce G l' s.
Proof.
  intros H. rewrite !netForce_forceSum. now apply forceSum_Permutation.
Qed.

Lemma updateStar_euler (l : list Star) (s : Star) :
  updateStar G dt l s = semiImplicitEuler dt (netForce G l s) s.
Proof. reflexivity. Qed.

(** C1. One physics step on a snapshot [l]: every star is updated by the
    semi-implicit Euler rule under its net force, and that force is the
    sum, over the old snapshot [l], of the forces of the stars with
    another id.  Hence for a reordering [l'] of [l], every star gets the
    same new position and velocity from [l'] as from [l], and the step on
    [l'] is the step on [l], reordered the same way. *)
Theorem physicsStep_simultaneous (l l' : list Star) :
  Permutation l l' ->
  physicsStep G dt l = map (fun s => semiImplicitEuler dt (forceSum G s l) s) l
  /\ (forall s, updateStar G dt l' s = updateStar G dt l s)
  /\ physicsStep G dt l' = map (updateStar G dt l) l'
  /\ Permutation (physicsStep G dt l) (physicsStep G dt l').
Proof.
  intros Hperm.
  assert (Hsame : forall s, updateStar G dt l' s = updateStar G dt l s).
  { intros s. rewrite !updateStar_euler.
    now rewrite (netForce_Permutation s l l' Hperm). }
  assert (Hstep : physicsStep G dt l' = map (updateStar G dt l) l').
  { unfold physicsStep. apply map_ext. exact Hsame. }
  split; [|split; [exact Hsame|split; [exact Hstep|]]].
  - unfold physicsStep. apply map_ext. intros s.
    now rewrite updateStar_euler, netForce_forceSum.
  - rewrite Hstep. unfold physicsStep. now apply Permutation_map.
Qed.

End Integrator.

(** ** Free motion *)

Section FreeMotion.

Import GalaxyCanvas Spec.

Lemma pairForce_no_gravity (a b : Star) : pairForce 0 a b = (0, 0).
Proof.
  unfold pairForce, force; cbv zeta. apply pair_eq; unfold Rdiv; ring.
Qed.

Lemma forceSum_no_gravity (s : Star) (l : list Star) : forceSum 0 s l = (0, 0).
Proof.
  induction l as [|o l IH]; cbn [forceSum]; [reflexivity|].
  rewrite IH, pairForce_no_gravity.
  destruct (Js.eqb (id s) (id o)); simpl; [reflexivity|apply pair_eq; ring].
Qed.

Lemma updateStar_no_gravity (dt : R) (l : list Star) (s : Star) :
  updateStar 0 dt l s = drift dt s.
Proof.
  rewrite updateStar_euler, netForce_forceSum, forceSum_no_gravity.
  unfold semiImplicitEuler, drift; simpl.
  f_equal; unfold Rdiv; ring.
Qed.

Lemma drift_drift (t u : R) (s : Star) : drift u (drift t s) = drift (t + u) s.
Proof. unfold drift; simpl; f_equal; ring. Qed.

Lemma drift_0 (s : Star) : drift 0 s = s.
Proof. destruct s; unfold drift; simpl; f_equal; ring. Qed.

(** C5. With [gravity = 0], after [n] frames of a running simulation
    whose stars have positive mass, every star has its velocity of before
    and the position [x0 + vx (n dt)], [y0 + vy (n dt)]. *)
Theorem no_gravity_linear_motion (props : Props) (n : nat) (st : State) :
  gravity props = 0 ->
  isPaused st = false ->
  Forall (fun s => 0 < mass s) (stars st) ->
  stars (frames props n st) = map (drift (INR n * timeStep props)) (stars st)
  /\ Forall2 (fun s s' =>
       vx s' = vx s /\ vy s' = vy s
       /\ x s' = x s + vx s * (INR n * timeStep props)
       /\ y s' = y s + vy s * (INR n * timeStep props))
     (stars st) (stars (frames props n st)).
Proof.
  intros HG Hrun _.
  assert (Hstars : stars (frames props n st)
                   = map (drift (INR n * timeStep props)) (stars st)
                   /\ isPaused (frames props n st) = false).
  { revert st Hrun. induction n as [|n IH]; intros st Hrun.
    - simpl. split; [|exact Hrun].
      rewrite Rmult_0_l. rewrite (map_ext _ (fun s => s) drift_0).
      now rewrite map_id.
    - cbn [frames].
      destruct (IH (draw props st)) as [IHs IHp].
      { rewrite draw_running by exact Hrun. exact Hrun. }
      split; [|exact IHp].
      rewrite IHs, draw_running by exact Hrun. simpl stars.
      unfold physicsStep. rewrite HG, map_map.
      apply map_ext. intros s.
      rewrite updateStar_no_gravity, drift_drift, S_INR. f_equal. ring. }
  destruct Hstars as [Hstars _]. split; [exact Hstars|].
  rewrite Hstars. clear Hstars.
  induction (stars st) as [|s l IH]; simpl; constructor; auto.
Qed.

End FreeMotion.

(** ** Ids *)

Section Ids.

Import GalaxyCanvas Spec.

Variable props : Props.

Lemma handleMouseMove_far st lastX lastY currentX currentY now random :
  isDragging st = true ->
  lastMousePos st = Some (lastX, lastY) ->
  let dx := currentX - lastX in
  let dy := currentY - lastY in
  let dist := sqrt (dx * dx + dy * dy) in
  15 < dist ->
  handleMouseMove props st currentX currentY now random
  = set_lastMousePos (Some (currentX, currentY))
      (set_stars (fun prevStars => prevStars ++
         [dragStar props st currentX currentY dx dy dist now random]) st).
Proof.
  intros Hd Hl dx dy dist Hfar. unfold handleMouseMove.
  rewrite Hd, Hl. simpl. fold dx dy dist. now rewrite js_gtb_true.
Qed.

Lemma sqrt_20_far (a b : R) : b - a = 20 -> 15 < sqrt ((b - a) * (b - a) + (0 - 0) * (0 - 0)).
Proof.
  intros ->. replace (20 * 20 + (0 - 0) * (0 - 0)) with (20 * 20) by ring.
  rewrite sqrt_square; lra.
Qed.

(** C4. The ids are not unique: a drag with two qualifying moves in the
    same millisecond ([Date.now()] returns [t] in both) leaves two stars
    at different places in the store that carry the same id [t].  The
    force loop, which recognises a star by its id, then skips their mutual
    attraction. *)
Theorem drag_moves_share_an_id (t random1 random2 : R) :
  let st := run props initialState
              [MouseDown 0 0; MouseMove 20 0 t random1; MouseMove 40 0 t random2] in
  exists a b,
    stars st = [a; b]
    /\ x a <> x b
    /\ id a = t /\ id b = t
    /\ ~ NoDup (ids st)
    /\ forall G, netForce G (stars st) a = (0, 0)
                 /\ netForce G (stars st) b = (0, 0).
Proof.
  intros st. unfold st, run; cbn [fold_left step].
  set (st0 := handleMouseDown initialState 0 0).
  rewrite (handleMouseMove_far st0 0 0 20 0 t random1)
    by (try reflexivity; apply sqrt_20_far; ring).
  match goal with |- context [handleMouseMove props ?s 40 0 t random2] => set (st1 := s) end.
  rewrite (handleMouseMove_far st1 20 0 40 0 t random2)
    by (try reflexivity; apply sqrt_20_far; ring).
  do 2 eexists. split; [reflexivity|].
  unfold ids; cbn [stars set_stars set_lastMousePos st1 st0 handleMouseDown
                   set_startDragPos set_isDragging initialState app map].
  split; [cbn [x dragStar]; lra|].
  split; [reflexivity|]. split; [reflexivity|]. split.
  - cbn [id dragStar]. intros Hnd.
    inversion Hnd as [|? ? Hin _]; subst. apply Hin. now left.
  - intros G. unfold netForce. cbn [fold_left]. unfold accumulate.
    cbn [id dragStar]. rewrite !js_eqb_refl. now split.
Qed.

End Ids.

(** ** Loops of the generator *)

Section Loops.

Import GalaxyCanvas Page Spec.

Lemma sumFrom_le (f g : Z -> nat) (n : nat) : forall k,
  (forall i, (f i <= g i)%nat) -> (sumFrom f n k <= sumFrom g n k)%nat.
Proof.
  induction n as [|n IH]; intros k Hfg; simpl; [lia|].
  specialize (Hfg k) as Hk. specialize (IH (k + 1)%Z Hfg). lia.
Qed.

Lemma sumFrom_ext_range (f g : Z -> nat) (n : nat) : forall k,
  (forall i, (k <= i < k + Z.of_nat n)%Z -> f i = g i) ->
  sumFrom f n k = sumFrom g n k.
Proof.
  induction n as [|n IH]; intros k Hfg; simpl; [reflexivity|].
  rewrite (Hfg k) by lia. rewrite (IH (k + 1)%Z); [reflexivity|].
  intros i Hi. apply Hfg. lia.
Qed.

Lemma sumFrom_ones (n : nat) : forall k, sumFrom (fun _ => 1%nat) n k = n.
Proof. induction n as [|n IH]; intros k; simpl; [reflexivity|]. now rewrite IH. Qed.

(** A loop whose rounds only push onto the list [proj s], [f i] stars in
    round [i], under an invariant [Inv] of the loop variables. *)
Lemma forLoop_pushes {S : Type} (proj : S -> list Star) (Inv : Z -> S -> Prop)
    (f : Z -> nat) (body : Z -> S -> Gen S) :
  (forall i s c, Inv i s ->
     Inv (i + 1)%Z (fst (body i s c))
     /\ exists pushed, proj (fst (body i s c)) = proj s ++ pushed
                       /\ length pushed = f i) ->
  forall n i s c, Inv i s ->
    exists pushed, proj (fst (forLoop n i body s c)) = proj s ++ pushed
                   /\ length pushed = sumFrom f n i.
Proof.
  intros Hbody. induction n as [|n IH]; intros i s c Hinv.
  - exists []. simpl. now rewrite app_nil_r.
  - cbn [forLoop sumFrom]. unfold bind.
    destruct (Hbody i s c Hinv) as (Hinv' & p1 & Hp1 & Hl1).
    destruct (body i s c) as [s1 c1]. simpl in Hinv', Hp1.
    destruct (IH (i + 1)%Z s1 c1 Hinv') as (p2 & Hp2 & Hl2).
    exists (p1 ++ p2). rewrite Hp2, Hp1, <- app_assoc. split; [reflexivity|].
    rewrite length_app. lia.
Qed.

(** Two loops whose rounds keep their variables related, and leave the
    same call counts, end related. *)
Lemma forLoop_simulates {S1 S2 : Type} (Rel : Z -> S1 -> S2 -> Prop)
    (body1 : Z -> S1 -> Gen S1) (body2 : Z -> S2 -> Gen S2) :
  (forall i s1 s2 c, Rel i s1 s2 ->
     Rel (i + 1)%Z (fst (body1 i s1 c)) (fst (body2 i s2 c))
     /\ snd (body1 i s1 c) = snd (body2 i s2 c)) ->
  forall n i s1 s2 c, Rel i s1 s2 ->
    Rel (i + Z.of_nat n)%Z (fst (forLoop n i body1 s1 c))
        (fst (forLoop n i body2 s2 c))
    /\ snd (forLoop n i body1 s1 c) = snd (forLoop n i body2 s2 c).
Proof.
  intros Hbody. induction n as [|n IH]; intros i s1 s2 c Hrel.
  - cbn [forLoop]. unfold ret. cbn [fst snd Z.of_nat].
    rewrite Z.add_0_r. now split.
  - cbn [forLoop]. unfold bind.
    destruct (Hbody i s1 s2 c Hrel) as [Hrel' Hc].
    destruct (body1 i s1 c) as [s1' c1], (body2 i s2 c) as [s2' c2].
    cbn [fst snd] in Hrel', Hc. subst c2.
    replace (i + Z.of_nat (S n))%Z with (i + 1 + Z.of_nat n)%Z by lia.
    now apply IH.
Qed.

End Loops.

(** ** The generator *)

Section GeneratorFacts.

Import GalaxyCanvas Page Spec.

Variable times : R -> R -> R.
Variables random now : nat -> R.
Variables centerX centerY : R.
Variables numStars numArms : Z.
Variables armTightness armSpread bulgeFraction : R.
Variables defaultMass gravityConstant : R.
Variable starImagesLength : Z.

Local Abbreviation bulgeCount := (bulgeStarsCount times numStars bulgeFraction).
Local Abbreviation armCount := (armStarsCount times numStars bulgeFraction).
Local Abbreviation perArm := (starsPerArmBase times numStars numArms bulgeFraction).
Local Abbreviation radius := (idealRadius times numStars numArms armTightness bulgeFraction).
Local Abbreviation slots := (starsInArm times numStars numArms bulgeFraction).
Local Abbreviation remainingArm := (remainingAt times numStars numArms bulgeFraction).
Local Abbreviation keptStar := (kept times numStars numArms armTightness bulgeFraction).
Local Abbreviation keptArm := (keptInArm times numStars numArms armTightness bulgeFraction).
Local Abbreviation keptArms := (keptInArms times numStars numArms armTightness bulgeFraction).
Local Abbreviation bulgeRound maxRadius :=
  (bulgeStar random now centerX centerY maxRadius defaultMass starImagesLength).
Local Abbreviation bulge maxRadius :=
  (bulgeLoop times random now centerX centerY numStars bulgeFraction maxRadius
     defaultMass starImagesLength).
Local Abbreviation armStarRound maxRadius :=
  (armStar times random now centerX centerY numStars numArms armTightness armSpread
     bulgeFraction maxRadius defaultMass gravityConstant starImagesLength).
Local Abbreviation armsRound maxRadius :=
  (armRound times random now centerX centerY numStars numArms armTightness armSpread
     bulgeFraction maxRadius defaultMass gravityConstant starImagesLength).
Local Abbreviation arms maxRadius :=
  (armLoop times random now centerX centerY numStars numArms armTightness armSpread
     bulgeFraction maxRadius defaultMass gravityConstant starImagesLength).
Local Abbreviation generate maxRadius :=
  (generateSpiralGalaxyStars times random now centerX centerY numStars numArms
     armTightness armSpread bulgeFraction maxRadius defaultMass gravityConstant
     starImagesLength).

Lemma bulgeStar_pushes maxRadius i stars c :
  exists pushed, fst (bulgeRound maxRadius i stars c) = stars ++ pushed
                 /\ length pushed = 1%nat.
Proof.
  unfold bulgeStar, bind, Math_random, Date_now, ret; simpl.
  eexists; split; reflexivity.
Qed.

Lemma armStar_pushes maxRadius baseArmAngle starsInThisArm i stars c :
  exists pushed,
    fst (armStarRound maxRadius baseArmAngle starsInThisArm i stars c)
    = stars ++ pushed
    /\ length pushed = keptStar maxRadius starsInThisArm i.
Proof.
  unfold armStar, kept.
  destruct (Js.gtb (radius starsInThisArm i) maxRadius).
  - exists []. unfold ret; simpl. now rewrite app_nil_r.
  - unfold bind, Math_random, Date_now, ret; simpl.
    eexists; split; reflexivity.
Qed.

Lemma bulgeLoop_length maxRadius c :
  length (fst (bulge maxRadius c)) = Z.to_nat bulgeCount.
Proof.
  unfold bulgeLoop, forUpTo.
  destruct (forLoop_pushes (fun s => s) (fun _ _ => True) (fun _ => 1%nat)
              (bulgeRound maxRadius)) with (n := Z.to_nat bulgeCount) (i := 0%Z)
              (s := @nil Star) (c := c) as (pushed & Hp & Hl); auto.
  - intros i s c' _. split; [exact I|]. apply bulgeStar_pushes.
  - rewrite Hp. simpl. rewrite Hl. apply sumFrom_ones.
Qed.

Lemma armRound_pushes maxRadius arm s c :
  (0 <= arm)%Z /\ snd s = remainingArm arm ->
  ((0 <= arm + 1)%Z /\ snd (fst (armsRound maxRadius arm s c)) = remainingArm (arm + 1))
  /\ exists pushed,
       fst (fst (armsRound maxRadius arm s c)) = fst s ++ pushed
       /\ length pushed = keptArm maxRadius arm.
Proof.
  destruct s as [stars m]. simpl. intros [Harm Hm]. subst m.
  unfold armRound, bind, ret.
  assert (Hpos : (0 <? remainingArm arm)%Z
                 = (arm <? remainder armCount numArms)%Z).
  { unfold remainingAt; cbv zeta.
    destruct (Z.ltb_spec arm (remainder armCount numArms));
      [apply Z.ltb_lt | apply Z.ltb_ge]; lia. }
  rewrite Hpos. fold (slots arm).
  destruct (forLoop_pushes (fun s => s) (fun _ _ => True)
              (keptStar maxRadius (slots arm))
              (armStarRound maxRadius (IZR arm * armOffsetAngle numArms) (slots arm)))
    with (n := Z.to_nat (slots arm)) (i := 0%Z) (s := stars) (c := c)
    as (pushed & Hp & Hl); auto.
  { intros i s c' _. split; [exact I|]. apply armStar_pushes. }
  unfold forUpTo.
  destruct (forLoop _ _ _ _ _) as [stars' c']. simpl in *.
  split; [split; [lia|]|].
  - unfold remainingAt in *; cbv zeta in *.
    destruct (Z.ltb_spec arm (remainder armCount numArms)); lia.
  - exists pushed. split; [exact Hp|exact Hl].
Qed.

Lemma armLoop_pushes maxRadius stars c :
  exists pushed, fst (arms maxRadius stars c) = stars ++ pushed
                 /\ length pushed = keptArms maxRadius.
Proof.
  unfold armLoop, forUpTo, bind, ret.
  destruct (forLoop_pushes (@fst (list Star) Z)
              (fun arm s => (0 <= arm)%Z /\ snd s = remainingArm arm)
              (keptArm maxRadius) (armsRound maxRadius))
    with (n := Z.to_nat numArms) (i := 0%Z)
         (s := (stars, remainder armCount numArms)) (c := c)
    as (pushed & Hp & Hl).
  - intros i s c'. apply armRound_pushes.
  - simpl. split; [lia|]. unfold remainingAt; cbv zeta. lia.
  - destruct (forLoop _ _ _ _ _) as [s' c']. simpl in *.
    exists pushed. split; [exact Hp|exact Hl].
Qed.

(** The result is the bulge followed by the kept arm stars. *)
Lemma generate_structure maxRadius c :
  exists armStars,
    fst (generate maxRadius c) = fst (bulge maxRadius c) ++ armStars
    /\ length (fst (bulge maxRadius c)) = Z.to_nat bulgeCount
    /\ length armStars = keptArms maxRadius.
Proof.
  unfold generateSpiralGalaxyStars, bind.
  pose proof (bulgeLoop_length maxRadius c) as Hb.
  destruct (bulge maxRadius c) as [stars c1]. simpl in *.
  destruct (armLoop_pushes maxRadius stars c1) as (pushed & Hp & Hl).
  exists pushed. auto.
Qed.

Lemma generate_length maxRadius c :
  length (fst (generate maxRadius c))
  = (Z.to_nat bulgeCount + keptArms maxRadius)%nat.
Proof.
  destruct (generate_structure maxRadius c) as (a & -> & Hb & Ha).
  rewrite length_app. lia.
Qed.

(** *** Counting *)

Lemma kept_le_1 maxRadius starsInThisArm i :
  (keptStar maxRadius starsInThisArm i <= 1)%nat.
Proof. unfold kept. destruct (Js.gtb _ _); lia. Qed.

Lemma keptInArm_le maxRadius arm :
  (keptArm maxRadius arm <= Z.to_nat (slots arm))%nat.
Proof.
  unfold keptInArm.
  rewrite <- (sumFrom_ones (Z.to_nat (slots arm)) 0) at 2.
  apply sumFrom_le. intros i. apply kept_le_1.
Qed.

Lemma keptInArms_le maxRadius :
  (keptArms maxRadius
   <= sumFrom (fun arm => Z.to_nat (slots arm)) (Z.to_nat numArms) 0)%nat.
Proof. unfold keptInArms. apply sumFrom_le. intros arm. apply keptInArm_le. Qed.

(** A larger [maxRadius] skips no star that a smaller one keeps. *)
Lemma kept_mono maxRadius maxRadius' starsInThisArm i :
  maxRadius <= maxRadius' ->
  (keptStar maxRadius starsInThisArm i <= keptStar maxRadius' starsInThisArm i)%nat.
Proof.
  intros Hle. unfold kept, Js.gtb, Js.ltb.
  destruct (Rlt_dec maxRadius _), (Rlt_dec maxRadius' _); try lia. lra.
Qed.

Lemma keptInArms_mono maxRadius maxRadius' :
  maxRadius <= maxRadius' -> (keptArms maxRadius <= keptArms maxRadius')%nat.
Proof.
  intros Hle. unfold keptInArms. apply sumFrom_le. intros arm.
  unfold keptInArm. apply sumFrom_le. intros i. now apply kept_mono.
Qed.

(** No star of an arm is skipped when every ideal radius fits. *)
Lemma keptInArms_all maxRadius :
  (forall arm i, (0 <= arm < numArms)%Z -> (0 <= i < slots arm)%Z ->
                 radius (slots arm) i <= maxRadius) ->
  keptArms maxRadius
  = sumFrom (fun arm => Z.to_nat (slots arm)) (Z.to_nat numArms) 0.
Proof.
  intros Hfit. unfold keptInArms. apply sumFrom_ext_range. intros arm Harm.
  unfold keptInArm.
  rewrite <- (sumFrom_ones (Z.to_nat (slots arm)) 0) at 2.
  apply sumFrom_ext_range. intros i Hi.
  unfold kept. rewrite js_gtb_false; [reflexivity|].
  apply Hfit; lia.
Qed.

End GeneratorFacts.

(** *** The partition of the stars *)

Section Partition.

Import GalaxyCanvas Page Spec.

Lemma floor_quotient (a n : Z) :
  (0 < n)%Z -> Js.floor (IZR a / IZR n) = (a / n)%Z.
Proof.
  intros Hn. unfold Js.floor. apply Zfloor_eq.
  pose proof (Z.div_mod a n ltac:(lia)) as Hdm.
  pose proof (Z.mod_pos_bound a n Hn) as [Hm0 Hm1].
  set (q := (a / n)%Z) in *. set (m := (a mod n)%Z) in *.
  assert (Ha : IZR a = IZR n * IZR q + IZR m)
    by (rewrite <- mult_IZR, <- plus_IZR; now f_equal).
  apply IZR_le in Hm0. apply IZR_lt in Hm1. apply IZR_lt in Hn.
  assert (Hdiv : IZR a / IZR n = IZR q + IZR m / IZR n)
    by (rewrite Ha; field; lra).
  assert (Hinv : 0 < / IZR n) by (apply Rinv_0_lt_compat; lra).
  assert (Hlo : 0 <= IZR m / IZR n) by (apply Rmult_le_pos; lra).
  assert (Hhi : IZR m / IZR n < 1).
  { unfold Rdiv. rewrite <- (Rinv_r (IZR n)) by lra.
    apply Rmult_lt_compat_r; lra. }
  rewrite Hdiv. lra.
Qed.

Lemma bulgeStarsCount_range (numStars : Z) (bulgeFraction : R) :
  (0 <= numStars)%Z -> 0 <= bulgeFraction <= 1 ->
  (0 <= bulgeStarsCount Rmult numStars bulgeFraction <= numStars)%Z.
Proof.
  intros HN [Hb0 Hb1]. unfold bulgeStarsCount, Js.floor.
  apply IZR_le in HN.
  split.
  - apply Zfloor_lub. simpl. apply Rmult_le_pos; lra.
  - rewrite <- (ZfloorZ numStars) at 2. apply Zfloor_le. nra.
Qed.

Lemma starsInArm_evenShare (times : R -> R -> R) (numStars numArms : Z)
    (bulgeFraction : R) (arm : Z) :
  (0 <= armStarsCount times numStars bulgeFraction)%Z -> (0 < numArms)%Z ->
  starsInArm times numStars numArms bulgeFraction arm
  = evenShare (armStarsCount times numStars bulgeFraction) numArms arm.
Proof.
  intros Ha Hn. unfold starsInArm, evenShare, starsPerArmBase, remainder.
  rewrite floor_quotient by exact Hn.
  now rewrite Z.rem_mod_nonneg by lia.
Qed.

(** The shares of the first [n] arms from arm [k] on add up to [n] times
    the quotient plus the arms among them that get one more. *)
Lemma evenShare_sum (total arms : Z) :
  (0 <= total)%Z -> (0 < arms)%Z ->
  forall (n : nat) (k : Z), (0 <= k)%Z ->
    Z.of_nat (sumFrom (fun arm => Z.to_nat (evenShare total arms arm)) n k)
    = (Z.of_nat n * (total / arms)
       + Z.max 0 (Z.min (k + Z.of_nat n) (total mod arms) - k))%Z.
Proof.
  intros Ht Ha.
  pose proof (Z.div_pos total arms Ht Ha) as Hq.
  induction n as [|n IH]; intros k Hk.
  - simpl. lia.
  - cbn [sumFrom]. rewrite Nat2Z.inj_add, (IH (k + 1)%Z) by lia.
    unfold evenShare.
    destruct (Z.ltb_spec k (total mod arms)); lia.
Qed.

Lemma evenShare_total (total arms : Z) :
  (0 <= total)%Z -> (0 < arms)%Z ->
  sumFrom (fun arm => Z.to_nat (evenShare total arms arm)) (Z.to_nat arms) 0
  = Z.to_nat total.
Proof.
  intros Ht Ha. apply Nat2Z.inj.
  rewrite (evenShare_sum total arms Ht Ha) by lia.
  pose proof (Z.div_mod total arms ltac:(lia)).
  pose proof (Z.mod_pos_bound total arms Ha).
  rewrite !Z2Nat.id by lia. lia.
Qed.

End Partition.

(** *** The length of the generated list *)

Section GeneratedLength.

Import GalaxyCanvas Page Spec.

Variable times : R -> R -> R.
Variables random now : nat -> R.
Variables centerX centerY : R.
Variables numStars numArms : Z.
Variables armTightness armSpread bulgeFraction : R.
Variables defaultMass gravityConstant : R.
Variable starImagesLength : Z.

Local Abbreviation bulgeCount := (bulgeStarsCount times numStars bulgeFraction).
Local Abbreviation armCount := (armStarsCount times numStars bulgeFraction).
Local Abbreviation radius := (idealRadius times numStars numArms armTightness bulgeFraction).
Local Abbreviation slots := (starsInArm times numStars numArms bulgeFraction).
Local Abbreviation keptArms := (keptInArms times numStars numArms armTightness bulgeFraction).
Local Abbreviation bulge maxRadius :=
  (bulgeLoop times random now centerX centerY numStars bulgeFraction maxRadius
     defaultMass starImagesLength).
Local Abbreviation generate maxRadius :=
  (generateSpiralGalaxyStars times random now centerX centerY numStars numArms
     armTightness armSpread bulgeFraction maxRadius defaultMass gravityConstant
     starImagesLength).
Local Abbreviation remainingArm := (remainingAt times numStars numArms bulgeFraction).
Local Abbreviation armsRound maxRadius :=
  (armRound times random now centerX centerY numStars numArms armTightness armSpread
     bulgeFraction maxRadius defaultMass gravityConstant starImagesLength).
Local Abbreviation arms maxRadius :=
  (armLoop times random now centerX centerY numStars numArms armTightness armSpread
     bulgeFraction maxRadius defaultMass gravityConstant starImagesLength).
Local Abbreviation evenRound maxRadius :=
  (evenArmRound times random now centerX centerY numStars numArms armTightness
     armSpread bulgeFraction maxRadius defaultMass gravityConstant
     starImagesLength).
Local Abbreviation evenLoop maxRadius :=
  (evenArmLoop times random now centerX centerY numStars numArms armTightness
     armSpread bulgeFraction maxRadius defaultMass gravityConstant
     starImagesLength).
Local Abbreviation evenly maxRadius :=
  (evenGalaxy times random now centerX centerY numStars numArms armTightness
     armSpread bulgeFraction maxRadius defaultMass gravityConstant
     starImagesLength).

Lemma slots_total :
  (0 <= armCount)%Z -> (0 < numArms)%Z ->
  sumFrom (fun arm => Z.to_nat (slots arm)) (Z.to_nat numArms) 0 = Z.to_nat armCount.
Proof.
  intros Ha Hn. rewrite <- (evenShare_total armCount numArms Ha Hn).
  apply sumFrom_ext_range. intros arm _.
  now rewrite starsInArm_evenShare.
Qed.

Lemma keptInArms_le_armCount maxRadius :
  (0 <= armCount)%Z -> (keptArms maxRadius <= Z.to_nat armCount)%nat.
Proof.
  intros Ha. destruct (Z.ltb_spec 0 numArms) as [Hn|Hn].
  - rewrite <- (slots_total Ha Hn). apply keptInArms_le.
  - unfold keptInArms. replace (Z.to_nat numArms) with 0%nat by lia. simpl. lia.
Qed.

Lemma generate_length_le maxRadius c :
  (0 <= bulgeCount <= numStars)%Z ->
  (length (fst (generate maxRadius c)) <= Z.to_nat numStars)%nat.
Proof.
  intros Hbc. rewrite generate_length.
  assert (Ha : (0 <= armCount)%Z) by (unfold armStarsCount; lia).
  pose proof (keptInArms_le_armCount maxRadius Ha).
  unfold armStarsCount in *. lia.
Qed.

Lemma generate_length_mono maxRadius maxRadius' c :
  maxRadius <= maxRadius' ->
  (length (fst (generate maxRadius c)) <= length (fst (generate maxRadius' c)))%nat.
Proof.
  intros Hle. rewrite !generate_length.
  pose proof (keptInArms_mono times numStars numArms armTightness bulgeFraction
                maxRadius maxRadius' Hle). lia.
Qed.

(** *** The arm loop gives every arm its even share *)

(** A round of the arm loop that starts with the [remainingArmStars] of
    its arm is the round of the specification: its inner loop runs the
    arm's even share of rounds, at the arm's angle. *)
Lemma armRound_even maxRadius arm stars c :
  (0 <= armCount)%Z -> (0 < numArms)%Z -> (0 <= arm)%Z ->
  armsRound maxRadius arm (stars, remainingArm arm) c
  = ((fst (evenRound maxRadius arm stars c), remainingArm (arm + 1)),
     snd (evenRound maxRadius arm stars c)).
Proof.
  intros Ha Hn Harm. unfold armRound, evenArmRound, bind, ret; cbv zeta.
  assert (Hpos : (0 <? remainingArm arm)%Z
                 = (arm <? remainder armCount numArms)%Z).
  { unfold remainingAt; cbv zeta.
    destruct (Z.ltb_spec arm (remainder armCount numArms));
      [apply Z.ltb_lt | apply Z.ltb_ge]; lia. }
  rewrite Hpos. fold (slots arm).
  rewrite (starsInArm_evenShare times numStars numArms bulgeFraction arm Ha Hn).
  destruct (forUpTo _ _ _ _) as [stars' c']. cbn [fst snd].
  f_equal. f_equal.
  unfold remainingAt; cbv zeta.
  destruct (Z.ltb_spec arm (remainder armCount numArms)); lia.
Qed.

Lemma armLoop_even maxRadius stars c :
  (0 <= armCount)%Z -> (0 < numArms)%Z ->
  arms maxRadius stars c = evenLoop maxRadius stars c.
Proof.
  intros Ha Hn. unfold armLoop, evenArmLoop, forUpTo, bind, ret.
  destruct (forLoop_simulates
              (fun arm (s1 : list Star * Z) (s2 : list Star) =>
                 (0 <= arm)%Z /\ snd s1 = remainingArm arm /\ fst s1 = s2)
              (armsRound maxRadius) (evenRound maxRadius))
    with (n := Z.to_nat numArms) (i := 0%Z)
         (s1 := (stars, remainder armCount numArms)) (s2 := stars) (c := c)
    as [(_ & _ & Hstars) Hcalls].
  - intros i [stars1 m] s2 c' (Hi & Hm & Hs). cbn [fst snd] in Hm, Hs. subst m s2.
    rewrite (armRound_even maxRadius i stars1 c' Ha Hn Hi). cbn [fst snd].
    split; [split; [lia|split; reflexivity]|reflexivity].
  - cbn [fst snd]. split; [lia|]. split; [|reflexivity].
    unfold remainingAt; cbv zeta. lia.
  - destruct (forLoop _ _ (armsRound maxRadius) _ _) as [s' c'].
    destruct (forLoop _ _ (evenRound maxRadius) _ _) as [stars2 c2].
    cbn [fst snd] in *. now subst.
Qed.

(** The generator is the generator of the specification. *)
Lemma generate_even maxRadius c :
  (0 <= armCount)%Z -> (0 < numArms)%Z ->
  generate maxRadius c = evenly maxRadius c.
Proof.
  intros Ha Hn. unfold generateSpiralGalaxyStars, evenGalaxy, bind.
  destruct (bulge maxRadius c) as [stars c1].
  now apply armLoop_even.
Qed.

(** C3. For a parameter tuple with [numArms >= 1] whose
    [bulgeCount = floor (numStars * bulgeFraction)], the product taken as
    the machine multiplies, lies between 0 and [numStars]: the generator
    is the generator [evenGalaxy] of the specification, which after the
    [bulgeCount] bulge stars runs, for the arms in their order, arm
    [arm]'s even share of [armCount = numStars - bulgeCount] as the
    rounds of its inner loop, the first [armCount mod numArms] arms
    getting one more than the quotient; the shares add up to [armCount];
    the returned list holds the bulge stars and then the arm stars that
    were not skipped for [idealRadius > maxRadius]; so its length is at
    most [bulgeCount + armCount], and is exactly that when no arm star's
    [idealRadius] exceeds [maxRadius]. *)
Theorem generated_length_partition (maxRadius : R) (c : Calls) :
  (1 <= numArms)%Z -> (0 <= bulgeCount <= numStars)%Z ->
  armCount = (numStars - bulgeCount)%Z
  /\ generate maxRadius c = evenly maxRadius c
  /\ Z.of_nat (length (fst (bulge maxRadius c))) = bulgeCount
  /\ (forall arm, slots arm = evenShare armCount numArms arm)
  /\ Z.of_nat (sumFrom (fun arm => Z.to_nat (evenShare armCount numArms arm))
                 (Z.to_nat numArms) 0)
     = armCount
  /\ length (fst (generate maxRadius c))
     = (length (fst (bulge maxRadius c)) + keptArms maxRadius)%nat
  /\ (Z.of_nat (length (fst (generate maxRadius c))) <= bulgeCount + armCount)%Z
  /\ ((forall arm i, (0 <= arm < numArms)%Z ->
                     (0 <= i < evenShare armCount numArms arm)%Z ->
                     radius (evenShare armCount numArms arm) i <= maxRadius) ->
      Z.of_nat (length (fst (generate maxRadius c))) = (bulgeCount + armCount)%Z).
Proof.
  intros Hn Hbc.
  assert (Ha : (0 <= armCount)%Z) by (unfold armStarsCount; lia).
  assert (Hn' : (0 < numArms)%Z) by lia.
  pose proof (slots_total Ha Hn') as Hslots.
  pose proof (keptInArms_le_armCount maxRadius Ha) as Hkept.
  split; [reflexivity|].
  split; [now apply generate_even|].
  split; [rewrite bulgeLoop_length; lia|].
  split; [intros arm; now apply starsInArm_evenShare|].
  split; [rewrite (evenShare_total armCount numArms Ha Hn'); lia|].
  split; [now rewrite generate_length, bulgeLoop_length|].
  split.
  - rewrite generate_length. lia.
  - intros Hfit. rewrite generate_length.
    rewrite (keptInArms_all _ _ _ _ _ maxRadius), Hslots; [lia|].
    intros arm i Harm Hi.
    rewrite (starsInArm_evenShare times numStars numArms bulgeFraction arm Ha Hn')
      in *.
    now apply Hfit.
Qed.

End GeneratedLength.

(** *** Bounds on the generated count *)

Section GeneratedBounds.

Import GalaxyCanvas Page Spec Sample.

Lemma floor_integer (z : Z) (r : R) : r = IZR z -> Js.floor r = z.
Proof. intros ->. apply ZfloorZ. Qed.

Lemma bulgeStarsCount_100 : bulgeStarsCount Rmult 100 0.12 = 12%Z.
Proof. unfold bulgeStarsCount. apply floor_integer. lra. Qed.

(** The first star of every arm sits at [idealRadius = armTightness]. *)
Lemma idealRadius_first times numStars numArms armTightness bulgeFraction
    starsInThisArm :
  idealRadius times numStars numArms armTightness bulgeFraction starsInThisArm 0
  = armTightness.
Proof.
  unfold idealRadius, spiralAngle; cbv zeta.
  rewrite !Rmult_0_l, Rmult_0_r, exp_0. ring.
Qed.

Lemma exp_le_mono (u v : R) : u <= v -> exp u <= exp v.
Proof.
  intros [Hlt | ->]; [left; now apply exp_increasing | right; reflexivity].
Qed.

(** Along an arm the ideal radius stays below
    [armTightness * exp (PI * armTightness / 75)]: the index runs over less
    than one average arm and the arms hold at most [numStars] stars. *)
Lemma idealRadius_bound times numStars numArms armTightness bulgeFraction
    starsInThisArm i :
  (0 < numStars)%Z -> (0 < numArms)%Z -> 0 <= armTightness ->
  (0 <= armStarsCount times numStars bulgeFraction <= numStars)%Z ->
  (0 <= i < starsInThisArm)%Z ->
  idealRadius times numStars numArms armTightness bulgeFraction starsInThisArm i
  <= armTightness * exp (PI * armTightness / 75).
Proof.
  intros HN Hn HT [Ha0 HaN] [Hi0 His].
  unfold idealRadius, spiralAngle, currentArmAngleIncrement; cbv zeta.
  set (a := armStarsCount times numStars bulgeFraction) in *.
  apply IZR_lt in HN, Hn, His. apply IZR_le in Ha0, HaN, Hi0.
  assert (Hs : 0 < IZR starsInThisArm) by lra.
  apply Rmult_le_compat_l; [exact HT|]. apply exp_le_mono.
  replace 0.1 with (1 / 10) by lra.
  replace (1 / 10 * (IZR i * (IZR a / IZR numArms / IZR starsInThisArm)
                     * (PI * 2 / (IZR numStars / IZR numArms) * (armTightness / 15))))
    with ((IZR i / IZR starsInThisArm) * (IZR a / IZR numStars)
          * (PI * armTightness / 75))
    by (field; lra).
  assert (Hu : 0 <= IZR i / IZR starsInThisArm <= 1).
  { split; [apply Rmult_le_pos; [lra|left; now apply Rinv_0_lt_compat]|].
    apply (Rmult_le_reg_r (IZR starsInThisArm)); [exact Hs|].
    unfold Rdiv. rewrite Rmult_assoc, Rinv_l by lra. lra. }
  assert (Hv : 0 <= IZR a / IZR numStars <= 1).
  { split; [apply Rmult_le_pos; [lra|left; now apply Rinv_0_lt_compat]|].
    apply (Rmult_le_reg_r (IZR numStars)); [exact HN|].
    unfold Rdiv. rewrite Rmult_assoc, Rinv_l by lra. lra. }
  assert (Hp : 0 <= PI * armTightness / 75).
  { pose proof PI_RGT_0. apply Rmult_le_pos; [apply Rmult_le_pos|]; lra. }
  assert (Huv : 0 <= IZR i / IZR starsInThisArm * (IZR a / IZR numStars) <= 1) by nra.
  nra.
Qed.

(** The constants of [handleCreateSpiralGalaxy]: 96 bulge stars, 704 arm
    stars, and no ideal radius above 54. *)
Lemma bulgeStarsCount_call_site : bulgeStarsCount Rmult 800 0.12 = 96%Z.
Proof. unfold bulgeStarsCount. apply floor_integer. lra. Qed.

Lemma idealRadius_call_site starsInThisArm i :
  (0 <= i < starsInThisArm)%Z -> idealRadius Rmult 800 5 18 0.12 starsInThisArm i <= 54.
Proof.
  intros Hi.
  eapply Rle_trans.
  - apply idealRadius_bound; try lia; try lra.
    unfold armStarsCount. rewrite bulgeStarsCount_call_site. lia.
  - pose proof PI_4. pose proof PI_RGT_0. pose proof exp_le_3.
    assert (exp (PI * 18 / 75) <= exp 1) by (apply exp_le_mono; lra).
    lra.
Qed.

(** C9. With [numStars = 100] and [bulgeFraction = 0.12] the bulge loop
    produces exactly 12 stars, and they are the head of the returned
    list (the product of 100 and 0.12 is 12 in doubles as in the reals,
    so it is [Rmult] here).  For every parameter tuple, that is integer counts with
    [numStars >= 0] and a fraction [0 <= bulgeFraction <= 1], the
    returned list has at most [numStars] stars; this needs no more of
    the product [numStars * bulgeFraction] than a bulge count between 0
    and [numStars].  For every parameter tuple and the same results of
    [Math.random()] and [Date.now()], a larger [maxRadius] returns a list
    at least as long. *)
Theorem generated_count_bounds :
  (forall random now centerX centerY numArms armTightness armSpread maxRadius
          starMass gravityConstant images c,
     bulgeStarsCount Rmult 100 0.12 = 12%Z
     /\ length (fst (bulgeLoop Rmult random now centerX centerY 100 0.12 maxRadius
                       starMass images c)) = 12%nat
     /\ exists armStars,
          fst (generateSpiralGalaxyStars Rmult random now centerX centerY 100 numArms
                 armTightness armSpread 0.12 maxRadius starMass
                 gravityConstant images c)
          = fst (bulgeLoop Rmult random now centerX centerY 100 0.12 maxRadius
                   starMass images c) ++ armStars)
  /\ (forall random now centerX centerY numStars numArms armTightness armSpread
             bulgeFraction maxRadius starMass gravityConstant images c,
        (0 <= numStars)%Z -> 0 <= bulgeFraction <= 1 ->
        (Z.of_nat (length (fst (generateSpiralGalaxyStars Rmult random now centerX centerY
                                  numStars numArms armTightness armSpread
                                  bulgeFraction maxRadius starMass
                                  gravityConstant images c)))
         <= numStars)%Z)
  /\ (forall times random now centerX centerY numStars numArms armTightness
             armSpread bulgeFraction maxRadius starMass gravityConstant images c,
        (0 <= bulgeStarsCount times numStars bulgeFraction <= numStars)%Z ->
        (Z.of_nat (length (fst (generateSpiralGalaxyStars times random now centerX
                                  centerY numStars numArms armTightness armSpread
                                  bulgeFraction maxRadius starMass
                                  gravityConstant images c)))
         <= numStars)%Z)
  /\ (forall times random now centerX centerY numStars numArms armTightness
             armSpread bulgeFraction maxRadius maxRadius' starMass gravityConstant
             images c,
        maxRadius <= maxRadius' ->
        (length (fst (generateSpiralGalaxyStars times random now centerX centerY
                        numStars numArms armTightness armSpread bulgeFraction
                        maxRadius starMass gravityConstant images c))
         <= length (fst (generateSpiralGalaxyStars times random now centerX centerY
                           numStars numArms armTightness armSpread bulgeFraction
                           maxRadius' starMass gravityConstant images c)))%nat).
Proof.
  split; [|split; [|split]].
  - intros random now centerX centerY numArms armTightness armSpread maxRadius
           starMass gravityConstant images c.
    split; [exact bulgeStarsCount_100|]. split.
    + rewrite bulgeLoop_length, bulgeStarsCount_100. reflexivity.
    + destruct (generate_structure Rmult random now centerX centerY 100 numArms
                  armTightness armSpread 0.12 starMass gravityConstant
                  images maxRadius c) as (armStars & H & _).
      now exists armStars.
  - intros random now centerX centerY numStars numArms armTightness armSpread
           bulgeFraction maxRadius starMass gravityConstant images c HN Hb.
    pose proof (generate_length_le Rmult random now centerX centerY numStars
                  numArms armTightness armSpread bulgeFraction starMass
                  gravityConstant images maxRadius c
                  (bulgeStarsCount_range numStars bulgeFraction HN Hb)). lia.
  - intros times random now centerX centerY numStars numArms armTightness
           armSpread bulgeFraction maxRadius starMass gravityConstant images c Hbc.
    pose proof (generate_length_le times random now centerX centerY numStars
                  numArms armTightness armSpread bulgeFraction starMass
                  gravityConstant images maxRadius c Hbc). lia.
  - intros. now apply generate_length_mono.
Qed.

(** A galaxy of one arm. *)
Lemma keptInArms_one_arm times numStars armTightness bulgeFraction maxRadius :
  keptInArms times numStars 1 armTightness bulgeFraction maxRadius
  = (keptInArm times numStars 1 armTightness bulgeFraction maxRadius 0 + 0)%nat.
Proof. reflexivity. Qed.

Lemma starsInArm_one_arm times numStars bulgeFraction :
  starsInArm times numStars 1 bulgeFraction 0 = armStarsCount times numStars bulgeFraction.
Proof.
  unfold starsInArm, starsPerArmBase, remainder.
  rewrite floor_quotient, Z.div_1_r, Z.rem_1_r by lia. simpl. lia.
Qed.

(** C3, refuted as stated: one star, one arm, no bulge
    ([bulgeFraction = 0], so [bulgeCount = 0] and [armCount = 1]),
    [armSpread = 0.25], [defaultMass = 10], [G = 1], five images, and
    [maxRadius = 10] below [armTightness = 18].  The only arm star has
    [idealRadius = 18 > 10] and is skipped, so the list is empty while
    [bulgeCount + armCount = 0 + 1]. *)
Lemma generated_length_differs :
  bulgeStarsCount Rmult 1 0 = 0%Z
  /\ armStarsCount Rmult 1 0 = 1%Z
  /\ idealRadius Rmult 1 1 18 0 1 0 = 18
  /\ fst (generateSpiralGalaxyStars Rmult (always 0) (always 0) 0 0 1 1 18 0.25
            0 10 10 1 5 noCalls) = []
  /\ Z.of_nat (length (fst (generateSpiralGalaxyStars Rmult (always 0) (always 0)
                              0 0 1 1 18 0.25 0 10 10 1 5 noCalls)))
     <> (bulgeStarsCount Rmult 1 0 + armStarsCount Rmult 1 0)%Z.
Proof.
  assert (Hb0 : bulgeStarsCount Rmult 1 0 = 0%Z)
    by (unfold bulgeStarsCount; apply floor_integer; lra).
  assert (Ha0 : armStarsCount Rmult 1 0 = 1%Z) by (unfold armStarsCount; now rewrite Hb0).
  assert (H1 : length (fst (generateSpiralGalaxyStars Rmult (always 0) (always 0) 0 0 1 1
                             18 0.25 0 10 10 1 5 noCalls)) = 0%nat).
  { rewrite generate_length, Hb0, keptInArms_one_arm.
    unfold keptInArm. rewrite starsInArm_one_arm, Ha0.
    change (Z.to_nat 1) with 1%nat. cbn [sumFrom].
    unfold kept. rewrite idealRadius_first, js_gtb_true by lra. reflexivity. }
  split; [exact Hb0|]. split; [exact Ha0|].
  split; [apply idealRadius_first|].
  split; [now apply length_zero_iff_nil|].
  rewrite H1, Hb0, Ha0. discriminate.
Qed.

End GeneratedBounds.

(** * The properties at concrete inputs *)

Section Instances.

Import GalaxyCanvas Page Spec Sample.

(** Two stars at the same point, in either order. *)
Lemma physicsStep_simultaneous_swap :
  Permutation [starAt 1 0 0; starAt 2 3 4] [starAt 2 3 4; starAt 1 0 0]
  /\ Permutation (physicsStep 1 0.1 [starAt 1 0 0; starAt 2 3 4])
                 (physicsStep 1 0.1 [starAt 2 3 4; starAt 1 0 0]).
Proof.
  split; [apply perm_swap|].
  apply (physicsStep_simultaneous 1 0.1
           [starAt 1 0 0; starAt 2 3 4] [starAt 2 3 4; starAt 1 0 0]).
  apply perm_swap.
Defined.

(** Two stars of mass 10 at zero separation. *)
Lemma softened_force_bounded_at_zero_separation :
  0 < mass (starAt 1 0 0) /\ 0 < mass (starAt 2 0 0)
  /\ distSq (starAt 1 0 0) (starAt 2 0 0) <> 0
  /\ Rabs (force 1 (starAt 1 0 0) (starAt 2 0 0))
     <= Rabs 1 * mass (starAt 1 0 0) * mass (starAt 2 0 0)
        / (softeningFactor * softeningFactor).
Proof.
  assert (Hm1 : 0 < mass (starAt 1 0 0)) by (simpl; lra).
  assert (Hm2 : 0 < mass (starAt 2 0 0)) by (simpl; lra).
  split; [exact Hm1|]. split; [exact Hm2|].
  pose proof (softened_force_bounded 1 (starAt 1 0 0) (starAt 2 0 0) Hm1 Hm2) as H.
  cbv zeta in H. destruct H as (_ & _ & Hne & Hle & _).
  split; [exact Hne|exact Hle].
Defined.

(** Three frames without gravity. *)
Lemma no_gravity_linear_motion_three_frames :
  gravity noGravity = 0
  /\ isPaused twoStars = false
  /\ Forall (fun s => 0 < mass s) (stars twoStars)
  /\ stars (frames noGravity 3 twoStars)
     = map (drift (INR 3 * timeStep noGravity)) (stars twoStars).
Proof.
  assert (Hm : Forall (fun s => 0 < mass s) (stars twoStars))
    by (repeat constructor; simpl; lra).
  split; [reflexivity|]. split; [reflexivity|]. split; [exact Hm|].
  apply (no_gravity_linear_motion noGravity 3 twoStars eq_refl eq_refl Hm).
Defined.

(** A click: press, a small move and a frame, release 3 units away. *)
Lemma release_click_or_drag_click :
  Forall (fun ev => keepsPressed ev = true) [MouseMove 1 1 0 0; Frame]
  /\ (exists newStar,
        stars (run defaults initialState
                 [MouseDown 0 0; MouseMove 1 1 0 0; Frame; MouseUp 3 0 0 0])
        = stars (run defaults initialState [MouseDown 0 0; MouseMove 1 1 0 0; Frame])
          ++ [newStar]
        /\ x newStar = 3 /\ y newStar = 0 /\ vx newStar = 0 /\ vy newStar = 0)
  /\ isDragging
       (run defaults initialState
          [MouseDown 0 0; MouseMove 1 1 0 0; Frame; MouseUp 3 0 0 0])
     = false.
Proof.
  assert (Hd : Forall (fun ev => keepsPressed ev = true) [MouseMove 1 1 0 0; Frame])
    by (repeat constructor).
  split; [exact Hd|].
  pose proof (release_click_or_drag defaults initialState 0 0
                [MouseMove 1 1 0 0; Frame] 3 0 0 0 Hd) as H.
  cbv zeta in H. destruct H as (Hclick & _ & H & _).
  split; [|exact H].
  apply Hclick. lra.
Defined.

(** A move of 20 units right after the press spawns a star. *)
Lemma move_spawns_tangential_star_far :
  isDragging (run defaults initialState [MouseDown 0 0]) = true
  /\ exists newStar,
       stars (handleMouseMove defaults (run defaults initialState [MouseDown 0 0])
                20 0 7 0)
       = stars (run defaults initialState [MouseDown 0 0]) ++ [newStar]
       /\ x newStar = 20 /\ y newStar = 0.
Proof.
  split; [reflexivity|].
  destruct (move_spawns_tangential_star defaults [MouseDown 0 0] 20 0 7 0 eq_refl)
    as (lastX & lastY & Hlast & Hfar & _).
  injection Hlast as <- <-.
  destruct (Hfar (sqrt_20_far 0 20 ltac:(ring))) as (newStar & Hs & Hx & Hy & _).
  exists newStar. split; [exact Hs|]. split; [exact Hx|exact Hy].
Defined.

(** The call site on a canvas of 800 by 600: 96 bulge stars,
    [maxRadius = 480], nothing is skipped and the list holds all 800
    stars. *)
Lemma generated_length_partition_call_site :
  (1 <= 5)%Z /\ (0 <= bulgeStarsCount Rmult 800 0.12 <= 800)%Z
  /\ Z.of_nat (length (fst (generateSpiralGalaxyStars Rmult (always 0) (always 0) 400 300
                              800 5 18 0.25 0.12 480 10 1 5 noCalls)))
     = 800%Z.
Proof.
  assert (H1 : (1 <= 5)%Z) by lia.
  assert (H2 : (0 <= bulgeStarsCount Rmult 800 0.12 <= 800)%Z)
    by (rewrite bulgeStarsCount_call_site; lia).
  split; [exact H1|]. split; [exact H2|].
  pose proof (generated_length_partition Rmult (always 0) (always 0) 400 300
                800 5 18 0.25 0.12 10 1 5 480 noCalls H1 H2) as H.
  destruct H as (Ha & _ & _ & _ & _ & _ & _ & H).
  rewrite H; [rewrite Ha; lia|].
  intros arm i _ Hi. eapply Rle_trans; [now apply idealRadius_call_site|lra].
Defined.

Lemma generated_count_bounds_call_site :
  (0 <= 800)%Z /\ 0 <= 0.12 <= 1
  /\ (Z.of_nat (length (fst (generateSpiralGalaxyStars Rmult (always 0) (always 0) 400 300
                               800 5 18 0.25 0.12 480 10 1 5 noCalls)))
      <= 800)%Z.
Proof.
  assert (H1 : (0 <= 800)%Z) by lia.
  assert (H3 : 0 <= 0.12 <= 1) by lra.
  split; [exact H1|]. split; [exact H3|].
  destruct generated_count_bounds as (_ & H & _ & _).
  apply H; assumption.
Defined.

End Instances.

(** * Further properties *)

(** ** Momentum *)

Section Momentum.

Import GalaxyCanvas Spec Notions.

Variables G dt : R.

Lemma total_plus (f g : Star -> R) (l : list Star) :
  total (fun s => f s + g s) l = total f l + total g l.
Proof. induction l as [|s l IH]; simpl; [ring|]. rewrite IH. ring. Qed.

Lemma total_scale (c : R) (f : Star -> R) (l : list Star) :
  total (fun s => f s * c) l = total f l * c.
Proof. induction l as [|s l IH]; simpl; [ring|]. rewrite IH. ring. Qed.

Lemma total_opp (f : Star -> R) (l : list Star) :
  total (fun s => - f s) l = - total f l.
Proof. induction l as [|s l IH]; simpl; [ring|]. rewrite IH. ring. Qed.

Lemma total_ext (f g : Star -> R) (l : list Star) :
  Forall (fun s => f s = g s) l -> total f l = total g l.
Proof.
  induction 1 as [|s l Hs _ IH]; simpl; [reflexivity|]. now rewrite Hs, IH.
Qed.

Lemma total_map (f : Star -> R) (g : Star -> Star) (l : list Star) :
  total f (map g l) = total (fun s => f (g s)) l.
Proof. induction l as [|s l IH]; simpl; [reflexivity|]. now rewrite IH. Qed.

Lemma js_eqb_sym (a b : R) : Js.eqb a b = Js.eqb b a.
Proof.
  unfold Js.eqb. destruct (Req_dec_T a b), (Req_dec_T b a); congruence.
Qed.

Lemma distSq_sym (a b : Star) : distSq a b = distSq b a.
Proof. unfold distSq; cbv zeta; ring. Qed.

(** Action and reaction: the force of [b] on [a] is the opposite of the
    force of [a] on [b]. *)
Lemma pairForce_opposite (a b : Star) :
  fst (pairForce G a b) = - fst (pairForce G b a)
  /\ snd (pairForce G a b) = - snd (pairForce G b a).
Proof.
  unfold pairForce, force; cbv zeta; simpl.
  rewrite (distSq_sym b a).
  pose proof (distSq_pos a b) as HD.
  assert (Hs : sqrt (distSq a b) <> 0).
  { apply Rgt_not_eq. now apply sqrt_lt_R0. }
  split; field; split; try exact Hs; lra.
Qed.

Lemma pull_self (s : Star) : pull G s s = (0, 0).
Proof. unfold pull. now rewrite js_eqb_refl. Qed.

Lemma pull_opposite (s o : Star) :
  fst (pull G s o) = - fst (pull G o s) /\ snd (pull G s o) = - snd (pull G o s).
Proof.
  unfold pull. rewrite (js_eqb_sym (id o) (id s)).
  destruct (Js.eqb (id s) (id o)); simpl; [split; ring|].
  apply pairForce_opposite.
Qed.

Lemma forceSum_total (s : Star) (l : list Star) :
  fst (forceSum G s l) = total (fun o => fst (pull G s o)) l
  /\ snd (forceSum G s l) = total (fun o => snd (pull G s o)) l.
Proof.
  induction l as [|o l [IHx IHy]]; simpl; [split; reflexivity|].
  unfold pull at 1 3.
  destruct (Js.eqb (id s) (id o)); simpl; rewrite <- ?IHx, <- ?IHy; split; ring.
Qed.

Lemma forceSum_cons (s a : Star) (l : list Star) :
  fst (forceSum G s (a :: l)) = fst (pull G s a) + fst (forceSum G s l)
  /\ snd (forceSum G s (a :: l)) = snd (pull G s a) + snd (forceSum G s l).
Proof.
  simpl. unfold pull. destruct (Js.eqb (id s) (id a)); simpl; split; ring.
Qed.

(** The net forces on the stars of a store cancel. *)
Lemma net_forces_cancel (l : list Star) :
  total (fun s => fst (forceSum G s l)) l = 0
  /\ total (fun s => snd (forceSum G s l)) l = 0.
Proof.
  induction l as [|a l [IHx IHy]]; [split; reflexivity|].
  cbn [total].
  destruct (forceSum_cons a a l) as [Hax Hay]. rewrite Hax, Hay, pull_self.
  rewrite (total_ext (fun s => fst (forceSum G s (a :: l)))
             (fun s => fst (pull G s a) + fst (forceSum G s l)))
    by (apply Forall_forall; intros s _; apply forceSum_cons).
  rewrite (total_ext (fun s => snd (forceSum G s (a :: l)))
             (fun s => snd (pull G s a) + snd (forceSum G s l)))
    by (apply Forall_forall; intros s _; apply forceSum_cons).
  rewrite !total_plus, IHx, IHy.
  destruct (forceSum_total a l) as [Hx Hy]. rewrite Hx, Hy.
  rewrite (total_ext (fun s => fst (pull G s a)) (fun s => - fst (pull G a s)))
    by (apply Forall_forall; intros s _; apply pull_opposite).
  rewrite (total_ext (fun s => snd (pull G s a)) (fun s => - snd (pull G a s)))
    by (apply Forall_forall; intros s _; apply pull_opposite).
  rewrite !total_opp. simpl. split; ring.
Qed.

(** X1. A frame keeps the total momentum of the store, and moves its
    centre of mass by the momentum times [dt], whatever [G] and however
    many stars there are (of non-zero mass). *)
Theorem frame_conserves_momentum (l : list Star) :
  Forall (fun s => mass s <> 0) l ->
  momentumX (physicsStep G dt l) = momentumX l
  /\ momentumY (physicsStep G dt l) = momentumY l
  /\ massMomentX (physicsStep G dt l) = massMomentX l + momentumX l * dt
  /\ massMomentY (physicsStep G dt l) = massMomentY l + momentumY l * dt.
Proof.
  intros Hm.
  destruct (net_forces_cancel l) as [Hx Hy].
  assert (Hpx : momentumX (physicsStep G dt l) = momentumX l).
  { unfold momentumX, physicsStep. rewrite total_map.
    rewrite (total_ext _ (fun s => mass s * vx s + fst (forceSum G s l) * dt)).
    - now rewrite total_plus, total_scale, Hx, Rmult_0_l, Rplus_0_r.
    - eapply Forall_impl; [|exact Hm]. intros s Hs.
      rewrite updateStar_euler, netForce_forceSum. simpl. now field. }
  assert (Hpy : momentumY (physicsStep G dt l) = momentumY l).
  { unfold momentumY, physicsStep. rewrite total_map.
    rewrite (total_ext _ (fun s => mass s * vy s + snd (forceSum G s l) * dt)).
    - now rewrite total_plus, total_scale, Hy, Rmult_0_l, Rplus_0_r.
    - eapply Forall_impl; [|exact Hm]. intros s Hs.
      rewrite updateStar_euler, netForce_forceSum. simpl. now field. }
  split; [exact Hpx|]. split; [exact Hpy|].
  rewrite <- Hpx, <- Hpy.
  unfold massMomentX, massMomentY, momentumX, momentumY, physicsStep.
  rewrite !total_map, <- !total_scale, <- !total_plus.
  split; apply total_ext, Forall_forall; intros s _;
    rewrite updateStar_euler; simpl; ring.
Qed.

End Momentum.

(** ** Symmetries of a frame *)

Section Symmetry.

Import GalaxyCanvas Spec Notions.

Variables G dt : R.

Lemma distSq_translate (cx cy : R) (a b : Star) :
  distSq (translate cx cy a) (translate cx cy b) = distSq a b.
Proof. unfold distSq, translate; simpl; ring. Qed.

Lemma pairForce_translate (cx cy : R) (a b : Star) :
  pairForce G (translate cx cy a) (translate cx cy b) = pairForce G a b.
Proof.
  unfold pairForce, force. cbv zeta. rewrite distSq_translate. simpl.
  replace (x b + cx - (x a + cx)) with (x b - x a) by ring.
  replace (y b + cy - (y a + cy)) with (y b - y a) by ring.
  reflexivity.
Qed.

Lemma forceSum_translate (cx cy : R) (s : Star) (l : list Star) :
  forceSum G (translate cx cy s) (map (translate cx cy) l) = forceSum G s l.
Proof.
  induction l as [|o l IH]; [reflexivity|].
  cbn [map forceSum]. rewrite IH, pairForce_translate. reflexivity.
Qed.

(** X2. The physics depends on relative positions only: moving every
    star of the store by the same vector and then running a frame gives
    the frame's result moved by that vector. *)
Theorem frame_commutes_with_translation (cx cy : R) (l : list Star) :
  physicsStep G dt (map (translate cx cy) l)
  = map (translate cx cy) (physicsStep G dt l).
Proof.
  unfold physicsStep. rewrite !map_map. apply map_ext. intros s.
  rewrite !updateStar_euler, !netForce_forceSum, forceSum_translate.
  unfold semiImplicitEuler, translate; simpl. f_equal; ring.
Qed.

Lemma forceSum_pair_first (a b : Star) :
  id a <> id b -> forceSum G a [a; b] = pairForce G a b.
Proof.
  intros Hab. cbn [forceSum]. rewrite js_eqb_refl.
  destruct (Js.eqb (id a) (id b)) eqn:He; [now apply js_eqb_eq in He|].
  destruct (pairForce G a b) as [fx fy]; cbn [fst snd]. apply pair_eq; ring.
Qed.

Lemma forceSum_pair_second (a b : Star) :
  id a <> id b -> forceSum G b [a; b] = pairForce G b a.
Proof.
  intros Hab. cbn [forceSum]. rewrite js_eqb_refl.
  destruct (Js.eqb (id b) (id a)) eqn:He;
    [apply js_eqb_eq in He; congruence|].
  destruct (pairForce G b a) as [fx fy]; cbn [fst snd]. apply pair_eq; ring.
Qed.

Lemma mirrored_step (a b : Star) :
  id a <> id b -> mirrored a b ->
  mirrored (updateStar G dt [a; b] a) (updateStar G dt [a; b] b).
Proof.
  intros Hab (Hm & Hx & Hy & Hvx & Hvy).
  rewrite !updateStar_euler, !netForce_forceSum.
  rewrite forceSum_pair_first, forceSum_pair_second by exact Hab.
  destruct (pairForce_opposite G a b) as [Hfx Hfy].
  unfold mirrored, semiImplicitEuler; cbn [mass x y vx vy].
  rewrite Hm, Hx, Hy, Hvx, Hvy, Hfx, Hfy.
  repeat split; unfold Rdiv; ring.
Qed.

End Symmetry.

Section SymmetricPair.

Import GalaxyCanvas Spec Notions.

(** X3. Two stars of equal positive mass and different ids that mirror
    each other about the origin, in position and in velocity, still do so
    after any number of frames of a running simulation. *)
Theorem mirrored_pair_stays_mirrored (props : Props) (n : nat) (st : State)
    (a b : Star) :
  stars st = [a; b] -> isPaused st = false ->
  id a <> id b -> 0 < mass a -> mirrored a b ->
  exists a' b',
    stars (frames props n st) = [a'; b']
    /\ id a' = id a /\ id b' = id b
    /\ mirrored a' b'.
Proof.
  revert st a b. induction n as [|n IH]; intros st a b Hst Hrun Hab Hpos Hmir.
  - exists a, b. simpl. auto.
  - cbn [frames].
    set (G := gravity props). set (dt := timeStep props).
    destruct (IH (draw props st) (updateStar G dt [a; b] a) (updateStar G dt [a; b] b))
      as (a' & b' & Hs & Ha & Hb & Hm).
    + rewrite draw_running by exact Hrun. simpl. now rewrite Hst.
    + rewrite draw_running by exact Hrun. exact Hrun.
    + exact Hab.
    + exact Hpos.
    + now apply mirrored_step.
    + exists a', b'. auto.
Qed.

(** X4. A star is not attracted by itself: in a store with one star (of
    positive mass) a frame is free motion whatever the gravity, and after
    [n] frames of a running simulation the star is at
    [x0 + vx (n dt)], [y0 + vy (n dt)] with its velocity of before.  An
    empty store stays empty. *)
Theorem lone_star_drifts (props : Props) (n : nat) (st : State) :
  (stars st = [] -> stars (frames props n st) = [])
  /\ (forall s, stars st = [s] -> isPaused st = false -> 0 < mass s ->
        stars (frames props n st) = [drift (INR n * timeStep props) s]).
Proof.
  split.
  - revert st. induction n as [|n IH]; intros st Hst; [exact Hst|].
    cbn [frames]. apply IH. unfold draw.
    destruct (isPaused st); [exact Hst|]. simpl. now rewrite Hst.
  - revert st. induction n as [|n IH]; intros st s Hst Hrun Hm.
    + simpl. now rewrite Rmult_0_l, drift_0.
    + cbn [frames].
      assert (Hone : updateStar (gravity props) (timeStep props) [s] s
                     = drift (timeStep props) s).
      { rewrite updateStar_euler, netForce_forceSum. simpl.
        rewrite js_eqb_refl. unfold semiImplicitEuler, drift; simpl.
        f_equal; unfold Rdiv; ring. }
      rewrite (IH (draw props st) (drift (timeStep props) s)).
      * rewrite drift_drift, S_INR. f_equal. f_equal. ring.
      * rewrite draw_running by exact Hrun. cbn [stars set_stars].
        rewrite Hst. unfold physicsStep. cbn [map]. now rewrite Hone.
      * rewrite draw_running by exact Hrun. exact Hrun.
      * exact Hm.
Qed.

End SymmetricPair.

(** ** Gestures that create nothing *)

Section IdlePointer.

Import GalaxyCanvas Spec Notions.

Variable props : Props.

Lemma step_idle st ev :
  isDragging st = false -> notAPress ev = true -> step props st ev = st.
Proof.
  intros Hd Hev. destruct ev; simpl in Hev; try discriminate; simpl.
  - unfold handleMouseMove. now rewrite Hd.
  - unfold handleMouseUp. now rewrite Hd.
  - unfold handleMouseLeave. now rewrite Hd.
Qed.

Lemma run_idle evs : forall st,
  isDragging st = false -> Forall (fun ev => notAPress ev = true) evs ->
  run props st evs = st.
Proof.
  induction evs as [|ev evs IH]; intros st Hd Hall; [reflexivity|].
  inversion Hall as [|? ? Hev Hrest]; subst.
  unfold run in *; simpl. rewrite (step_idle st ev Hd Hev). now apply IH.
Qed.

(** X5. Without a press, pointer events are ignored: in a state that is
    not dragging, any sequence of moves, releases and leaves changes
    nothing, not even the tracked points. *)
Theorem pointer_ignored_until_press (st : State) (evs : list Event) :
  isDragging st = false ->
  Forall (fun ev => notAPress ev = true) evs ->
  run props st evs = st.
Proof. intros Hd Hall. now apply run_idle. Qed.

(** X6. Leaving the canvas cancels the gesture: after a press and any
    events that keep the pointer pressed, a leave creates no star and ends
    the dragging, and no later move or release creates one either, until
    the next press. *)
Theorem leave_cancels_gesture (st : State) (startX startY : R)
    (during after : list Event) :
  Forall (fun ev => keepsPressed ev = true) during ->
  Forall (fun ev => notAPress ev = true) after ->
  let pressed := run props st (MouseDown startX startY :: during) in
  let left := run props pressed (MouseLeave :: after) in
  stars left = stars pressed
  /\ isDragging left = false
  /\ lastMousePos left = None
  /\ isPaused left = isPaused pressed.
Proof.
  intros Hduring Hafter pressed left.
  assert (Hd : isDragging pressed = true).
  { unfold pressed, run; simpl.
    destruct (run_keepsPressed props during (handleMouseDown st startX startY) Hduring)
      as [Hd _].
    unfold run in Hd. now rewrite Hd. }
  unfold left, run; cbn [fold_left step].
  unfold handleMouseLeave. rewrite Hd.
  fold (run props (set_lastMousePos None (set_isDragging false pressed)) after).
  rewrite run_idle by (try reflexivity; exact Hafter).
  repeat split.
Qed.

End IdlePointer.

(** ** How many stars a drag creates *)

Section DragPath.

Import GalaxyCanvas Spec Notions.

Variable props : Props.

Lemma dist_nonneg (p q : R * R) : 0 <= dist p q.
Proof. unfold dist. apply sqrt_pos. Qed.

Lemma dist_same (p : R * R) : dist p p = 0.
Proof.
  unfold dist.
  replace ((fst p - fst p) * (fst p - fst p) + (snd p - snd p) * (snd p - snd p))
    with 0 by ring.
  apply sqrt_0.
Qed.

Lemma dist_triangle (p q r : R * R) : dist p r <= dist p q + dist q r.
Proof.
  pose proof (triangle (fst r) (snd r) (fst p) (snd p) (fst q) (snd q)) as H.
  unfold dist_euc, Rsqr in H. unfold dist. lra.
Qed.

(** The bound, for a drag in progress: [last] is the tracked point and
    [current] the point of the latest event. *)
Lemma moves_bounded (moves : list ((R * R) * (R * R))) :
  forall st last current,
    isDragging st = true -> lastMousePos st = Some last ->
    exists added,
      stars (run props st (map moveTo moves)) = stars st ++ added
      /\ 15 * INR (length added)
         <= dist last current + pathLength current (map fst moves).
Proof.
  induction moves as [|[[px py] [now random]] moves IH];
    intros st [lastX lastY] current Hd Hl.
  - exists []. simpl. rewrite app_nil_r. split; [reflexivity|].
    pose proof (dist_nonneg (lastX, lastY) current). lra.
  - cbn [map fst snd pathLength]. unfold run. cbn [fold_left].
    change (step props st (moveTo (px, py, (now, random))))
      with (handleMouseMove props st px py now random).
    pose proof (dist_triangle (lastX, lastY) current (px, py)) as Htri.
    destruct (Rlt_dec 15 (dist (lastX, lastY) (px, py))) as [Hfar | Hnear].
    + rewrite (handleMouseMove_far props st lastX lastY px py now random Hd Hl Hfar).
      destruct (IH (set_lastMousePos (Some (px, py))
                     (set_stars (fun prevStars => prevStars ++
                        [dragStar props st px py (px - lastX) (py - lastY)
                           (sqrt ((px - lastX) * (px - lastX)
                                  + (py - lastY) * (py - lastY))) now random]) st))
                  (px, py) (px, py) Hd eq_refl) as (added & Hs & Hb).
      unfold run in Hs. rewrite Hs. cbn [stars set_stars set_lastMousePos].
      rewrite <- app_assoc. eexists. split; [reflexivity|].
      cbn [length app]. rewrite S_INR. rewrite dist_same in Hb. lra.
    + assert (Hsame : handleMouseMove props st px py now random = st).
      { unfold handleMouseMove. rewrite Hd, Hl. simpl.
        rewrite js_gtb_false; [reflexivity|]. unfold dist in Hnear. simpl in Hnear. lra. }
      rewrite Hsame.
      destruct (IH st (lastX, lastY) (px, py) Hd Hl) as (added & Hs & Hb).
      unfold run in Hs. exists added. split; [exact Hs|]. lra.
Qed.

(** X7. A drag creates fewer stars than its path is long in units of 15:
    after a press at [start] and moves through the points of [moves], the
    stars appended number at most [pathLength / 15]. *)
Theorem drag_stars_bounded_by_path (st : State) (start : R * R)
    (moves : list ((R * R) * (R * R))) :
  exists added,
    stars (run props st (MouseDown (fst start) (snd start) :: map moveTo moves))
    = stars st ++ added
    /\ 15 * INR (length added) <= pathLength start (map fst moves).
Proof.
  destruct start as [startX startY]. cbn [fst snd].
  unfold run. cbn [fold_left step].
  destruct (moves_bounded moves (handleMouseDown st startX startY)
              (startX, startY) (startX, startY) eq_refl eq_refl)
    as (added & Hs & Hb).
  exists added. split; [exact Hs|]. rewrite dist_same in Hb. lra.
Qed.

End DragPath.

(** ** What the store keeps *)

Section Store.

Import GalaxyCanvas Spec Notions.

Variable props : Props.

Lemma sameIdentity_trans (a b c : Star) :
  sameIdentity a b -> sameIdentity b c -> sameIdentity a c.
Proof.
  unfold sameIdentity. intros (H1 & H2 & H3) (H4 & H5 & H6).
  repeat split; congruence.
Qed.

Lemma Forall2_sameIdentity_trans (l1 l2 l3 : list Star) :
  Forall2 sameIdentity l1 l2 -> Forall2 sameIdentity l2 l3 ->
  Forall2 sameIdentity l1 l3.
Proof.
  intros H12. revert l3. induction H12 as [|a b l1 l2 Hab _ IH]; intros l3 H23.
  - inversion H23. constructor.
  - inversion H23 as [|? c ? l3' Hbc Hrest]; subst.
    constructor; [now apply (sameIdentity_trans a b c)|now apply IH].
Qed.

(** Every event but a clear keeps the stars it finds, in order and with
    their identity, and at most appends to them. *)
Lemma step_keeps_stars st ev :
  isClear ev = false ->
  exists kept added,
    stars (step props st ev) = kept ++ added
    /\ Forall2 sameIdentity (stars st) kept.
Proof.
  intros Hev.
  assert (Hpush : forall l pushed, l = stars st ++ pushed ->
            exists kept added, l = kept ++ added
                               /\ Forall2 sameIdentity (stars st) kept).
  { intros l pushed ->. exists (stars st), pushed.
    split; [reflexivity|apply Forall2_sameIdentity_refl]. }
  assert (Hsame : forall l, l = stars st ->
            exists kept added, l = kept ++ added
                               /\ Forall2 sameIdentity (stars st) kept).
  { intros l ->. apply (Hpush _ []). now rewrite app_nil_r. }
  destruct ev; simpl in Hev; try discriminate; simpl.
  - now apply Hsame.
  - unfold handleMouseMove.
    destruct (isDragging st); simpl; [|now apply Hsame].
    destruct (lastMousePos st) as [[lx ly]|]; [|now apply Hsame].
    destruct (Js.gtb _ 15); [|now apply Hsame].
    eapply Hpush. reflexivity.
  - unfold handleMouseUp.
    destruct (isDragging st); simpl; [|now apply Hsame].
    destruct (startDragPos st) as [[sx sy]|]; [|now apply Hsame].
    destruct (Js.ltb _ 25); [eapply Hpush; reflexivity|now apply Hsame].
  - unfold handleMouseLeave. destruct (isDragging st); now apply Hsame.
  - unfold draw. destruct (isPaused st); [now apply Hsame|].
    exists (physicsStep (gravity props) (timeStep props) (stars st)), [].
    simpl. rewrite app_nil_r. split; [reflexivity|].
    apply physicsStep_sameIdentity.
  - now apply Hsame.
  - eapply Hpush. reflexivity.
  - now apply Hsame.
Qed.

(** X8. Stars are never removed, reordered or re-identified except by a
    clear: after any events without [ClearStars] the store starts with the
    stars it had, in the same order and with the same id, mass and image
    index, followed by the stars created since. *)
Theorem stars_kept_until_clear (st : State) (evs : list Event) :
  Forall (fun ev => isClear ev = false) evs ->
  exists kept added,
    stars (run props st evs) = kept ++ added
    /\ Forall2 sameIdentity (stars st) kept
    /\ length kept = length (stars st).
Proof.
  intros Hall. revert st.
  induction Hall as [|ev evs Hev _ IH]; intros st.
  - exists (stars st), []. simpl. rewrite app_nil_r.
    split; [reflexivity|]. split; [apply Forall2_sameIdentity_refl|reflexivity].
  - unfold run in *; cbn [fold_left].
    destruct (step_keeps_stars st ev Hev) as (k1 & a1 & Hs1 & Hk1).
    destruct (IH (step props st ev)) as (k2 & a2 & Hs2 & Hk2 & _).
    rewrite Hs1 in Hk2.
    destruct (Forall2_app_inv_l _ _ Hk2) as (k2a & k2b & Hka & _ & ->).
    exists k2a, (k2b ++ a2). rewrite Hs2, <- app_assoc.
    split; [reflexivity|].
    assert (Hkept : Forall2 sameIdentity (stars st) k2a)
      by (now apply (Forall2_sameIdentity_trans _ k1 _)).
    split; [exact Hkept|]. symmetry. now apply (Forall2_length Hkept).
Qed.

Lemma Forall_app_one (P : Star -> Prop) (l : list Star) (s : Star) :
  Forall P l -> P s -> Forall P (l ++ [s]).
Proof. intros Hl Hs. apply Forall_app. split; [exact Hl|now constructor]. Qed.

Lemma step_keeps_mass_positive st ev :
  0 < defaultMass props -> bringsPositiveMass ev ->
  Forall (fun s => 0 < mass s) (stars st) ->
  Forall (fun s => 0 < mass s) (stars (step props st ev)).
Proof.
  intros Hm Hev Hst. destruct ev; simpl in *.
  - exact Hst.
  - unfold handleMouseMove.
    destruct (isDragging st); simpl; [|exact Hst].
    destruct (lastMousePos st) as [[lx ly]|]; [|exact Hst].
    destruct (Js.gtb _ 15); [|exact Hst].
    simpl. apply Forall_app_one; [exact Hst|exact Hm].
  - unfold handleMouseUp.
    destruct (isDragging st); simpl; [|exact Hst].
    destruct (startDragPos st) as [[sx sy]|]; [|exact Hst].
    destruct (Js.ltb _ 25); simpl; [|exact Hst].
    apply Forall_app_one; [exact Hst|exact Hm].
  - unfold handleMouseLeave. destruct (isDragging st); exact Hst.
  - unfold draw. destruct (isPaused st); [exact Hst|]. simpl.
    unfold physicsStep. apply Forall_map.
    eapply Forall_impl; [|exact Hst]. intros s Hs. exact Hs.
  - exact Hst.
  - unfold internalClearStars. destruct (isPaused st); simpl; constructor.
  - apply Forall_app. split; assumption.
  - exact Hst.
Qed.

(** X9. The store keeps the precondition of the physics: with a positive
    [defaultMass], and batches of positive mass handed to [addStars], every
    star of the store has positive mass after any sequence of events. *)
Theorem masses_stay_positive (st : State) (evs : list Event) :
  0 < defaultMass props ->
  Forall bringsPositiveMass evs ->
  Forall (fun s => 0 < mass s) (stars st) ->
  Forall (fun s => 0 < mass s) (stars (run props st evs)).
Proof.
  intros Hm Hall. revert st.
  induction Hall as [|ev evs Hev _ IH]; intros st Hst; [exact Hst|].
  unfold run in *; cbn [fold_left]. apply IH.
  now apply step_keeps_mass_positive.
Qed.

Lemma frames_paused (n : nat) : forall st,
  isPaused st = true -> frames props n st = st.
Proof.
  induction n as [|n IH]; intros st Hp; [reflexivity|].
  cbn [frames]. rewrite draw_paused by exact Hp. now apply IH.
Qed.

(** X10. Pausing freezes the simulation: a running simulation that is
    paused, left for any number of frames and resumed is exactly in the
    state it was paused in. *)
Theorem pause_then_resume_restores (st : State) (n : nat) :
  isPaused st = false ->
  frames props n (internalTogglePause st) = internalTogglePause st
  /\ internalTogglePause (frames props n (internalTogglePause st)) = st.
Proof.
  intros Hrun.
  assert (Hp : isPaused (internalTogglePause st) = true)
    by (unfold internalTogglePause; simpl; now rewrite Hrun).
  rewrite (frames_paused n _ Hp). split; [reflexivity|].
  destruct st; simpl in *; subst. reflexivity.
Qed.

End Store.

(** ** Painting *)

Section Painting.

Import GalaxyCanvas Render.

Lemma sqrt_900 : sqrt 900 = 30.
Proof. replace 900 with (30 * 30) by ring. apply sqrt_square. lra. Qed.

Lemma spriteSize_range (star : Star) :
  15 <= spriteSize star <= 30
  /\ (900 <= mass star -> spriteSize star = 30)
  /\ (0 <= mass star <= 900 -> spriteSize star = 15 + sqrt (mass star) * 0.5).
Proof.
  unfold spriteSize, Js.min; cbv zeta.
  pose proof (sqrt_pos (mass star)) as Hs.
  split; [split; [apply Rmin_glb; lra|apply Rmin_l]|]. split.
  - intros Hm. apply Rmin_left.
    pose proof (sqrt_le_1_alt 900 (mass star) Hm) as Hle.
    rewrite sqrt_900 in Hle. lra.
  - intros [Hm0 Hm]. apply Rmin_right.
    pose proof (sqrt_le_1_alt (mass star) 900 Hm) as Hle.
    rewrite sqrt_900 in Hle. lra.
Qed.

(** X11. A star (of mass at least 0) with a loaded image is painted as
    that image, in a square
    centred on the star whose side is between 15 and 30: it grows with the
    square root of the mass and stops at 30 from mass 900 on. *)
Theorem sprite_centred_and_clamped (st : State) (star : Star) (k : Z) :
  imagesLoaded st = true ->
  imageIndex star = Some k ->
  (0 <= k < starImagesLength st)%Z ->
  0 <= mass star ->
  exists size,
    paintStar st star = DrawImage k (x star - size / 2) (y star - size / 2) size size
    /\ (x star - size / 2) + size / 2 = x star
    /\ (y star - size / 2) + size / 2 = y star
    /\ 15 <= size <= 30
    /\ (900 <= mass star -> size = 30)
    /\ (0 <= mass star <= 900 -> size = 15 + sqrt (mass star) * 0.5).
Proof.
  intros Hl Hi Hk _. exists (spriteSize star).
  unfold paintStar, hasImage. rewrite Hl, Hi.
  replace (0 <=? k)%Z with true by (symmetry; apply Z.leb_le; lia).
  replace (k <? starImagesLength st)%Z with true by (symmetry; apply Z.ltb_lt; lia).
  cbn [andb]. split; [reflexivity|].
  split; [lra|]. split; [lra|]. apply spriteSize_range.
Qed.

(** X12. Without a usable image a star (of mass at least 0) is a circle:
    while the images
    are not loaded, or when the star has no image index or one outside
    [starImages], [draw] paints a filled circle at the star, of radius
    [sqrt mass] but never less than 1. *)
Theorem circle_without_image (st : State) (star : Star) :
  0 <= mass star ->
  imagesLoaded st = false
  \/ imageIndex star = None
  \/ (exists k, imageIndex star = Some k
                /\ ((k < 0)%Z \/ (starImagesLength st <= k)%Z)) ->
  exists radius,
    paintStar st star = FillCircle (x star) (y star) radius
    /\ 1 <= radius
    /\ (1 <= mass star -> radius = sqrt (mass star))
    /\ (mass star <= 1 -> radius = 1).
Proof.
  intros _ Hcase. exists (Js.max 1 (sqrt (mass star))). split.
  - unfold paintStar, hasImage.
    destruct Hcase as [Hl | [Hi | (k & Hi & Hk)]].
    + now rewrite Hl.
    + rewrite Hi. now destruct (imagesLoaded st).
    + rewrite Hi. destruct (imagesLoaded st); [|reflexivity].
      destruct Hk as [Hk | Hk].
      * replace (0 <=? k)%Z with false by (symmetry; apply Z.leb_gt; lia).
        reflexivity.
      * replace (k <? starImagesLength st)%Z with false
          by (symmetry; apply Z.ltb_ge; lia).
        now rewrite andb_false_r.
  - unfold Js.max. split; [apply Rmax_l|]. split.
    + intros Hm. apply Rmax_right.
      rewrite <- sqrt_1. now apply sqrt_le_1_alt.
    + intros Hm. apply Rmax_left.
      rewrite <- sqrt_1. now apply sqrt_le_1_alt.
Qed.

End Painting.

(** ** Image loading *)

Section Loading.

Import GalaxyCanvas Loader.

Lemma settleAll_spec (evs : list ImageEvent) : forall l,
  loadedCount (settleAll l evs) = (loadedCount l + Z.of_nat (length evs))%Z
  /\ component (settleAll l evs)
     = if ((loadedCount l <? imagePathsLength)
           && (imagePathsLength <=? loadedCount l + Z.of_nat (length evs)))%Z
       then imagesReady imagePathsLength (component l)
       else component l.
Proof.
  unfold imagePathsLength.
  induction evs as [|ev evs IH]; intros l.
  - cbn [settleAll fold_left length]. split; [lia|].
    destruct (Z.ltb_spec (loadedCount l) 5), (Z.leb_spec 5 (loadedCount l + Z.of_nat 0));
      cbn [andb]; try reflexivity. lia.
  - unfold settleAll in *. cbn [fold_left].
    destruct (IH (settled l ev)) as [Hc Hs]. rewrite Hc, Hs.
    unfold settled, imagePathsLength; cbn [loadedCount component length].
    split; [lia|].
    rewrite Nat2Z.inj_succ.
    destruct (Z.eqb_spec (loadedCount l + 1) 5),
             (Z.ltb_spec (loadedCount l + 1) 5),
             (Z.ltb_spec (loadedCount l) 5),
             (Z.leb_spec 5 (loadedCount l + 1 + Z.of_nat (length evs))),
             (Z.leb_spec 5 (loadedCount l + Z.succ (Z.of_nat (length evs))));
      cbn [andb]; try reflexivity; lia.
Qed.

(** X13. The images count as loaded exactly when all five have loaded or
    failed: after [n] [onload] and [onerror] events in any mix,
    [imagesLoaded] is set if and only if [n >= 5]; it then comes with five
    images, and the stars are never touched. *)
Theorem images_loaded_when_all_settled (st : State) (evs : list ImageEvent) :
  imagesLoaded st = false ->
  let l := settleAll (mounted st) evs in
  (imagesLoaded (component l) = true <-> (5 <= length evs)%nat)
  /\ (imagesLoaded (component l) = true -> starImagesLength (component l) = 5%Z)
  /\ ((length evs < 5)%nat -> component l = st)
  /\ stars (component l) = stars st.
Proof.
  intros Hl l.
  destruct (settleAll_spec evs (mounted st)) as [_ Hs].
  unfold l. rewrite Hs. unfold imagePathsLength, mounted.
  cbn [loadedCount component]. change (0 <? 5)%Z with true. cbn [andb].
  destruct (Z.leb_spec 5 (0 + Z.of_nat (length evs))) as [Hge | Hlt].
  - split; [split; [intros _; lia|reflexivity]|].
    split; [reflexivity|]. split; [lia|reflexivity].
  - split; [split; [rewrite Hl; discriminate|lia]|].
    split; [rewrite Hl; discriminate|]. split; reflexivity.
Qed.

End Loading.

(** ** The shape of a generated galaxy *)

Section GalaxyShape.

Import GalaxyCanvas Page Spec Notions.

Variable times : R -> R -> R.
Variables random now : nat -> R.
Variables centerX centerY : R.
Variables numStars numArms : Z.
Variables armTightness armSpread bulgeFraction maxRadius : R.
Variables starMass gravityConstant : R.
Variable images : Z.

Hypothesis random_unit : unitInterval random.
Hypothesis starMass_pos : 0 < starMass.
Hypothesis images_pos : (0 < images)%Z.

Local Abbreviation bulgeRound :=
  (bulgeStar random now centerX centerY maxRadius starMass images).
Local Abbreviation bulge :=
  (bulgeLoop times random now centerX centerY numStars bulgeFraction maxRadius
     starMass images).
Local Abbreviation armStarRound :=
  (armStar times random now centerX centerY numStars numArms armTightness armSpread
     bulgeFraction maxRadius starMass gravityConstant images).
Local Abbreviation armsRound :=
  (armRound times random now centerX centerY numStars numArms armTightness armSpread
     bulgeFraction maxRadius starMass gravityConstant images).
Local Abbreviation arms :=
  (armLoop times random now centerX centerY numStars numArms armTightness armSpread
     bulgeFraction maxRadius starMass gravityConstant images).
Local Abbreviation generate :=
  (generateSpiralGalaxyStars times random now centerX centerY numStars numArms
     armTightness armSpread bulgeFraction maxRadius starMass gravityConstant
     images).

Lemma cos_sin_unit (a : R) : cos a * cos a + sin a * sin a = 1.
Proof. pose proof (sin2_cos2 a) as H. unfold Rsqr in H. lra. Qed.

Lemma randomIndex_below (r : R) :
  0 <= r < 1 -> (0 <= Js.floor (r * IZR images) < images)%Z.
Proof.
  intros [H0 H1]. unfold Js.floor.
  pose proof (IZR_lt _ _ images_pos) as Hn. simpl in Hn.
  split.
  - apply Zfloor_lub. simpl. apply Rmult_le_pos; lra.
  - apply lt_IZR.
    pose proof (Zfloor_bound (r * IZR images)) as [Hlo _].
    eapply Rle_lt_trans; [exact Hlo|]. nra.
Qed.

(** A loop whose rounds only push stars that satisfy [P]. *)
Lemma forLoop_pushes_all {S : Type} (proj : S -> list Star) (P : Star -> Prop)
    (body : Z -> S -> Gen S) :
  (forall i s c, exists pushed,
      proj (fst (body i s c)) = proj s ++ pushed /\ Forall P pushed) ->
  forall n i s c,
    exists pushed, proj (fst (forLoop n i body s c)) = proj s ++ pushed
                   /\ Forall P pushed.
Proof.
  intros Hbody. induction n as [|n IH]; intros i s c.
  - exists []. simpl. rewrite app_nil_r. split; [reflexivity|constructor].
  - cbn [forLoop]. unfold bind.
    destruct (Hbody i s c) as (p1 & Hp1 & Hl1).
    destruct (body i s c) as [s1 c1]. simpl in Hp1.
    destruct (IH (i + 1)%Z s1 c1) as (p2 & Hp2 & Hl2).
    exists (p1 ++ p2). rewrite Hp2, Hp1, <- app_assoc. split; [reflexivity|].
    apply Forall_app. split; assumption.
Qed.

Lemma bulgeStar_shape i stars c :
  0 <= maxRadius ->
  exists pushed,
    fst (bulgeRound i stars c) = stars ++ pushed
    /\ Forall (bulgeShape centerX centerY maxRadius starMass images) pushed.
Proof.
  intros HR. unfold bulgeStar, bind, Math_random, Date_now, ret; simpl.
  eexists. split; [reflexivity|]. constructor; [|constructor].
  set (k := randomCalls c).
  pose proof (random_unit k) as H1.
  pose proof (random_unit (S k)) as H2.
  pose proof (random_unit (S (S k))) as H3.
  pose proof (random_unit (S (S (S k)))) as H4.
  pose proof (random_unit (S (S (S (S k))))) as H5.
  pose proof (random_unit (S (S (S (S (S (S k))))))) as H7.
  unfold bulgeShape, within, slowerThan, massBetween, indexBelow; simpl.
  split; [|split; [|split]].
  - set (a := random (S k) * PI * 2).
    replace ((centerX + random k * maxRadius * 0.2 * cos a - centerX)
             * (centerX + random k * maxRadius * 0.2 * cos a - centerX)
             + (centerY + random k * maxRadius * 0.2 * sin a - centerY)
               * (centerY + random k * maxRadius * 0.2 * sin a - centerY))
      with ((random k * maxRadius * 0.2) * (random k * maxRadius * 0.2)
            * (cos a * cos a + sin a * sin a)) by ring.
    rewrite cos_sin_unit, Rmult_1_r.
    assert (0 <= random k * maxRadius * 0.2 <= 0.2 * maxRadius) by nra.
    nra.
  - split; apply Rabs_le; lra.
  - nra.
  - eexists. split; [reflexivity|]. now apply randomIndex_below.
Qed.

Lemma or_else_pos (a : R) : 0 <= a -> 0 < Js.or_else a 1.
Proof. intros Ha. unfold Js.or_else. destruct (Req_dec_T a 0); lra. Qed.

Lemma armStar_shape baseArmAngle starsInThisArm i stars c :
  0 <= armTightness -> 0 <= armSpread <= 2 ->
  exists pushed,
    fst (armStarRound baseArmAngle starsInThisArm i stars c) = stars ++ pushed
    /\ Forall (armShape centerX centerY armSpread maxRadius starMass images) pushed.
Proof.
  intros HT [Hs0 Hs2]. unfold armStar.
  set (rho := idealRadius times numStars numArms armTightness bulgeFraction starsInThisArm i).
  set (theta := baseArmAngle
                + spiralAngle times numStars numArms armTightness bulgeFraction starsInThisArm i).
  unfold Js.gtb, Js.ltb. destruct (Rlt_dec maxRadius rho) as [Hskip | Hkeep].
  { exists []. unfold ret; simpl. rewrite app_nil_r. split; [reflexivity|constructor]. }
  apply Rnot_lt_le in Hkeep.
  assert (Hrho : 0 <= rho).
  { unfold rho, idealRadius. apply Rmult_le_pos; [exact HT|left; apply exp_pos]. }
  unfold bind, Math_random, Date_now, ret; simpl.
  eexists. split; [reflexivity|]. constructor; [|constructor].
  set (k := randomCalls c).
  pose proof (random_unit k) as H1.
  pose proof (random_unit (S k)) as H2.
  pose proof (random_unit (S (S (S k)))) as H4.
  set (sigma := rho + (random k - 0.5) * armSpread * rho).
  set (speed := sqrt _).
  set (norm := Js.or_else _ 1).
  assert (Hsigma : 0 <= sigma <= maxRadius * (1 + armSpread / 2)).
  { assert (Ht : -1 <= (random k - 0.5) * armSpread <= armSpread / 2) by nra.
    replace sigma with (rho * (1 + (random k - 0.5) * armSpread))
      by (unfold sigma; ring).
    split; [apply Rmult_le_pos; lra|].
    apply Rle_trans with (rho * (1 + armSpread / 2)).
    - apply Rmult_le_compat_l; lra.
    - apply Rmult_le_compat_r; lra. }
  assert (Hspeed : 0 <= speed) by apply sqrt_pos.
  assert (Hnorm : 0 < / norm).
  { apply Rinv_0_lt_compat. apply or_else_pos. apply sqrt_pos. }
  unfold armShape, tangential, counterClockwise, within, massBetween, indexBelow;
    simpl.
  fold sigma.
  split; [|split; [|split; [|split]]].
  - unfold Rdiv. ring.
  - replace ((centerX + sigma * cos theta - centerX) * (speed * (rho * cos theta / norm))
             - (centerY + sigma * sin theta - centerY)
               * (speed * (- (rho * sin theta) / norm)))
      with (sigma * speed * rho * / norm
            * (cos theta * cos theta + sin theta * sin theta))
      by (unfold Rdiv; ring).
    rewrite cos_sin_unit, Rmult_1_r.
    apply Rmult_le_pos; [apply Rmult_le_pos; [apply Rmult_le_pos|]|]; lra.
  - replace ((centerX + sigma * cos theta - centerX)
             * (centerX + sigma * cos theta - centerX)
             + (centerY + sigma * sin theta - centerY)
               * (centerY + sigma * sin theta - centerY))
      with (sigma * sigma * (cos theta * cos theta + sin theta * sin theta)) by ring.
    rewrite cos_sin_unit, Rmult_1_r. nra.
  - nra.
  - eexists. split; [reflexivity|]. now apply randomIndex_below.
Qed.

(** The orbital speed of an arm star: the whole mass of the galaxy at
    the distance [1 + softening] bounds it. *)
Lemma armStar_speed baseArmAngle starsInThisArm i stars c :
  0 <= armTightness -> 0 <= gravityConstant -> 0 < maxRadius ->
  (0 <= bulgeStarsCount times numStars bulgeFraction <= numStars)%Z ->
  exists pushed,
    fst (armStarRound baseArmAngle starsInThisArm i stars c) = stars ++ pushed
    /\ Forall (speedSqAtMost
                 (gravityConstant
                  * (totalBulgeMass times numStars bulgeFraction starMass
                     + totalArmMass times numStars bulgeFraction starMass) / 6))
              pushed.
Proof.
  intros HT HG HR Hb. unfold armStar.
  set (rho := idealRadius times numStars numArms armTightness bulgeFraction starsInThisArm i).
  set (theta := baseArmAngle
                + spiralAngle times numStars numArms armTightness bulgeFraction starsInThisArm i).
  unfold Js.gtb, Js.ltb. destruct (Rlt_dec maxRadius rho) as [Hskip | Hkeep].
  { exists []. unfold ret; simpl. rewrite app_nil_r. split; [reflexivity|constructor]. }
  apply Rnot_lt_le in Hkeep.
  assert (Hrho : 0 <= rho).
  { unfold rho, idealRadius. apply Rmult_le_pos; [exact HT|left; apply exp_pos]. }
  set (Mb := totalBulgeMass times numStars bulgeFraction starMass).
  set (Ma := totalArmMass times numStars bulgeFraction starMass).
  assert (HMb : 0 <= Mb).
  { unfold Mb, totalBulgeMass, avgBulgeMass.
    apply Rmult_le_pos; [apply IZR_le; lia|lra]. }
  assert (HMa : 0 <= Ma).
  { unfold Ma, totalArmMass, avgArmMass, armStarsCount.
    apply Rmult_le_pos; [apply IZR_le; lia|lra]. }
  unfold bind, Math_random, Date_now, ret. cbn [fst snd app].
  eexists. split; [reflexivity|]. constructor; [|constructor].
  unfold speedSqAtMost. cbn [vx vy].
  set (norm := Js.or_else _ 1).
  set (A := gravityConstant * (Mb + Ma * (rho / maxRadius))
            / (Js.max 1 rho + softening)).
  assert (Hq : 0 <= rho / maxRadius <= 1).
  { split.
    - apply Rmult_le_pos; [exact Hrho|left; now apply Rinv_0_lt_compat].
    - apply (Rmult_le_reg_r maxRadius); [exact HR|].
      unfold Rdiv. rewrite Rmult_assoc, Rinv_l, Rmult_1_r, Rmult_1_l by lra.
      exact Hkeep. }
  assert (HE : 0 <= Mb + Ma * (rho / maxRadius) <= Mb + Ma) by nra.
  assert (HD : 6 <= Js.max 1 rho + softening).
  { unfold Js.max, softening. pose proof (Rmax_l 1 rho). lra. }
  assert (HA : 0 <= A <= gravityConstant * (Mb + Ma) / 6).
  { unfold A.
    assert (HGE : 0 <= gravityConstant * (Mb + Ma * (rho / maxRadius))
                  <= gravityConstant * (Mb + Ma)) by nra.
    assert (Hinv : 0 < / (Js.max 1 rho + softening) <= / 6).
    { split; [apply Rinv_0_lt_compat; lra|apply Rinv_le_contravar; lra]. }
    unfold Rdiv. split; [apply Rmult_le_pos; lra|].
    apply Rle_trans with (gravityConstant * (Mb + Ma) * / (Js.max 1 rho + softening)).
    - apply Rmult_le_compat_r; lra.
    - apply Rmult_le_compat_l; lra. }
  assert (Hspeed : sqrt A * sqrt A = A) by (apply sqrt_sqrt; lra).
  assert (Hnorm : norm = Js.or_else rho 1).
  { unfold norm. f_equal.
    replace (rho * cos theta * (rho * cos theta)
             + rho * sin theta * (rho * sin theta))
      with (rho * rho * (cos theta * cos theta + sin theta * sin theta)) by ring.
    rewrite cos_sin_unit, Rmult_1_r. now apply sqrt_square. }
  assert (Hunit : 0 <= (rho / norm) * (rho / norm) <= 1).
  { rewrite Hnorm. unfold Js.or_else. destruct (Req_dec_T rho 0) as [H0|H0].
    - rewrite H0. unfold Rdiv. rewrite !Rmult_0_l. lra.
    - replace (rho / rho) with 1 by (field; exact H0). lra. }
  fold A.
  replace (sqrt A * (- (rho * sin theta) / norm) * (sqrt A * (- (rho * sin theta) / norm))
           + sqrt A * (rho * cos theta / norm) * (sqrt A * (rho * cos theta / norm)))
    with ((sqrt A * sqrt A) * ((rho / norm) * (rho / norm))
          * (cos theta * cos theta + sin theta * sin theta))
    by (unfold Rdiv; ring).
  rewrite cos_sin_unit, Rmult_1_r, Hspeed.
  apply Rle_trans with (A * 1); [apply Rmult_le_compat_l; lra|lra].
Qed.

Lemma bulgeLoop_shape c :
  0 <= maxRadius ->
  Forall (bulgeShape centerX centerY maxRadius starMass images) (fst (bulge c)).
Proof.
  intros HR. unfold bulgeLoop, forUpTo.
  destruct (forLoop_pushes_all (fun s => s)
              (bulgeShape centerX centerY maxRadius starMass images) bulgeRound)
    with (n := Z.to_nat (bulgeStarsCount times numStars bulgeFraction)) (i := 0%Z)
         (s := @nil Star) (c := c) as (pushed & Hp & Hall).
  - intros i s c'. now apply bulgeStar_shape.
  - rewrite Hp. exact Hall.
Qed.

(** What every round of the inner loops gives its star, every arm star
    of the arm loop has. *)
Lemma armLoop_all (P : Star -> Prop) :
  (forall baseArmAngle starsInThisArm i stars c,
     exists pushed,
       fst (armStarRound baseArmAngle starsInThisArm i stars c) = stars ++ pushed
       /\ Forall P pushed) ->
  forall stars c,
    exists pushed, fst (arms stars c) = stars ++ pushed /\ Forall P pushed.
Proof.
  intros Hstar stars c. unfold armLoop, forUpTo, bind, ret.
  destruct (forLoop_pushes_all (@fst (list Star) Z) P armsRound)
    with (n := Z.to_nat numArms) (i := 0%Z)
         (s := (stars, remainder (armStarsCount times numStars bulgeFraction) numArms))
         (c := c) as (pushed & Hp & Hall).
  - intros arm [stars0 remaining] c'. unfold armRound, bind, ret, forUpTo.
    match goal with
    | |- context [forLoop ?count ?start ?round stars0 c'] =>
        pose proof (fun Hround =>
                      forLoop_pushes_all (fun s : list Star => s) P
                        round Hround count start stars0 c') as Hloop;
        destruct Hloop as (pushed & Hp & Hall);
        [intros j s c''; apply Hstar|];
        destruct (forLoop count start round stars0 c') as [stars' c'']
    end.
    exists pushed. split; [exact Hp|exact Hall].
  - destruct (forLoop _ _ _ _ _) as [s' c']. simpl in *.
    exists pushed. split; [exact Hp|exact Hall].
Qed.

Lemma bulgeStar_mass_index i stars c :
  exists pushed,
    fst (bulgeRound i stars c) = stars ++ pushed
    /\ Forall (fun s => massBetween (0.8 * starMass) (2 * starMass) s
                        /\ indexBelow images s) pushed.
Proof.
  unfold bulgeStar, bind, Math_random, Date_now, ret; simpl.
  eexists. split; [reflexivity|]. constructor; [|constructor].
  set (k := randomCalls c).
  pose proof (random_unit (S (S (S (S k))))) as H5.
  pose proof (random_unit (S (S (S (S (S (S k))))))) as H7.
  unfold massBetween, indexBelow; simpl. split; [nra|].
  eexists. split; [reflexivity|]. now apply randomIndex_below.
Qed.

Lemma armStar_mass_index baseArmAngle starsInThisArm i stars c :
  exists pushed,
    fst (armStarRound baseArmAngle starsInThisArm i stars c) = stars ++ pushed
    /\ Forall (fun s => massBetween (0.8 * starMass) (2 * starMass) s
                        /\ indexBelow images s) pushed.
Proof.
  unfold armStar. destruct (Js.gtb _ maxRadius).
  { exists []. unfold ret; simpl. rewrite app_nil_r. split; [reflexivity|constructor]. }
  unfold bind, Math_random, Date_now, ret; simpl.
  eexists. split; [reflexivity|]. constructor; [|constructor].
  set (k := randomCalls c).
  pose proof (random_unit (S k)) as H2.
  pose proof (random_unit (S (S (S k)))) as H4.
  unfold massBetween, indexBelow; simpl. split; [nra|].
  eexists. split; [reflexivity|]. now apply randomIndex_below.
Qed.

(** X14. Every generated star can take part in the physics and be
    painted: for [Math.random()] in [[0, 1)], a positive [defaultMass] and
    at least one image, each star of the returned list has a mass in
    [[0.8 defaultMass, 2 defaultMass)], hence positive, and an image index
    in [[0, starImagesLength)]. *)
Theorem generated_stars_mass_and_image (c : Calls) :
  Forall (fun s => massBetween (0.8 * starMass) (2 * starMass) s
                   /\ 0 < mass s
                   /\ indexBelow images s)
         (fst (generate c)).
Proof.
  assert (Hall : Forall (fun s => massBetween (0.8 * starMass) (2 * starMass) s
                                  /\ indexBelow images s) (fst (generate c))).
  { unfold generateSpiralGalaxyStars, bind.
    assert (Hb : Forall (fun s => massBetween (0.8 * starMass) (2 * starMass) s
                                  /\ indexBelow images s) (fst (bulge c))).
    { unfold bulgeLoop, forUpTo.
      destruct (forLoop_pushes_all (fun s => s)
                  (fun s => massBetween (0.8 * starMass) (2 * starMass) s
                            /\ indexBelow images s) bulgeRound
                  (fun i s c' => bulgeStar_mass_index i s c')
                  (Z.to_nat (bulgeStarsCount times numStars bulgeFraction)) 0%Z [] c)
        as (pushed & Hp & Hall).
      rewrite Hp. exact Hall. }
    destruct (bulge c) as [stars c1]. cbn [fst] in Hb.
    unfold armLoop, forUpTo, bind, ret.
    destruct (forLoop_pushes_all (@fst (list Star) Z)
                (fun s => massBetween (0.8 * starMass) (2 * starMass) s
                          /\ indexBelow images s) armsRound)
      with (n := Z.to_nat numArms) (i := 0%Z)
           (s := (stars, remainder (armStarsCount times numStars bulgeFraction) numArms))
           (c := c1) as (pushed & Hp & Hall).
    - intros arm [stars0 remaining] c'. unfold armRound, bind, ret, forUpTo.
      match goal with
      | |- context [forLoop ?count ?start ?round stars0 c'] =>
          pose proof (fun Hround =>
                        forLoop_pushes_all (fun s : list Star => s)
                          (fun s => massBetween (0.8 * starMass) (2 * starMass) s
                                    /\ indexBelow images s)
                          round Hround count start stars0 c') as Hloop;
          destruct Hloop as (pushed & Hp & Hall);
          [intros j s c''; apply armStar_mass_index|];
          destruct (forLoop count start round stars0 c') as [stars' c'']
      end.
      exists pushed. split; [exact Hp|exact Hall].
    - destruct (forLoop _ _ _ _ _) as [s' c']. cbn [fst] in *.
      rewrite Hp. apply Forall_app. split; assumption. }
  eapply Forall_impl; [|exact Hall].
  intros s [Hm Hi]. split; [exact Hm|]. split; [|exact Hi].
  unfold massBetween in Hm. lra.
Qed.

(** X15. The bulge is a small, slow core: for [Math.random()] in
    [[0, 1)], [maxRadius >= 0], [defaultMass > 0] and at least one image
    ([starImagesLength > 0]), the stars of the bulge loop, which head the
    returned list, lie within [0.2 maxRadius] of the centre, have
    velocity components of at most 0.05, a mass in
    [[defaultMass, 2 defaultMass)] and an image index in
    [[0, starImagesLength)]. *)
Theorem bulge_stars_form_a_core (c : Calls) :
  0 <= maxRadius ->
  (exists armStars, fst (generate c) = fst (bulge c) ++ armStars)
  /\ Forall (bulgeShape centerX centerY maxRadius starMass images) (fst (bulge c)).
Proof.
  intros HR.
  destruct (generate_structure times random now centerX centerY numStars numArms
              armTightness armSpread bulgeFraction starMass gravityConstant
              images maxRadius c) as (armStars & Hs & _ & _).
  split; [now exists armStars|].
  now apply bulgeLoop_shape.
Qed.

(** X16. The arms orbit the centre.  Assume [Math.random()] in [[0, 1)],
    [defaultMass > 0], at least one image ([starImagesLength > 0]),
    [armTightness >= 0], [0 <= armSpread <= 2], [gravityConstant >= 0],
    [maxRadius > 0] and a bulge count between 0 and [numStars]; under
    these the enclosed mass is not negative and no divisor is zero, so
    that every square root and quotient of the arm loop is the real one.
    Then every arm star of the returned list has a velocity perpendicular
    to its offset from the centre and turning counter-clockwise, lies
    within [maxRadius (1 + armSpread / 2)] of the centre, has a mass in
    [[0.8 defaultMass, 1.2 defaultMass)] and an image index in
    [[0, starImagesLength)], and has a speed whose square is at most
    [gravityConstant (totalBulgeMass + totalArmMass) / 6], the whole mass
    of the galaxy at the distance [1 + softening]. *)
Theorem arm_stars_orbit_the_centre (c : Calls) :
  0 <= armTightness -> 0 <= armSpread <= 2 ->
  0 <= gravityConstant -> 0 < maxRadius ->
  (0 <= bulgeStarsCount times numStars bulgeFraction <= numStars)%Z ->
  exists armStars,
    fst (generate c) = fst (bulge c) ++ armStars
    /\ Forall (armShape centerX centerY armSpread maxRadius starMass images) armStars
    /\ Forall (speedSqAtMost
                 (gravityConstant
                  * (totalBulgeMass times numStars bulgeFraction starMass
                     + totalArmMass times numStars bulgeFraction starMass) / 6))
              armStars.
Proof.
  intros HT Hs HG HR Hb. unfold generateSpiralGalaxyStars, bind.
  destruct (bulge c) as [stars c1]. cbn [fst].
  destruct (armLoop_all
              (fun s => armShape centerX centerY armSpread maxRadius starMass images s
                        /\ speedSqAtMost
                             (gravityConstant
                              * (totalBulgeMass times numStars bulgeFraction starMass
                                 + totalArmMass times numStars bulgeFraction starMass)
                              / 6) s))
    with (stars := stars) (c := c1) as (pushed & Hp & Hall).
  - intros baseArmAngle starsInThisArm i stars0 c'.
    destruct (armStar_shape baseArmAngle starsInThisArm i stars0 c' HT Hs)
      as (p1 & Hp1 & Hall1).
    destruct (armStar_speed baseArmAngle starsInThisArm i stars0 c' HT HG HR Hb)
      as (p2 & Hp2 & Hall2).
    rewrite Hp1 in Hp2. apply app_inv_head in Hp2. subst p2.
    exists p1. split; [exact Hp1|]. now apply Forall_and.
  - exists pushed. split; [exact Hp|].
    apply Forall_and_inv in Hall. exact Hall.
Qed.

End GalaxyShape.

(** ** What the generator reads *)

Section GeneratorReads.

Import GalaxyCanvas Page Spec Notions.

Variable times : R -> R -> R.
Variables random now : nat -> R.
Variables centerX centerY : R.
Variables numStars numArms : Z.
Variables armTightness armSpread bulgeFraction maxRadius : R.
Variables starMass gravityConstant : R.
Variable images : Z.

Local Abbreviation bulgeRound :=
  (bulgeStar random now centerX centerY maxRadius starMass images).
Local Abbreviation bulge :=
  (bulgeLoop times random now centerX centerY numStars bulgeFraction maxRadius
     starMass images).
Local Abbreviation armStarRound :=
  (armStar times random now centerX centerY numStars numArms armTightness armSpread
     bulgeFraction maxRadius starMass gravityConstant images).
Local Abbreviation armsRound :=
  (armRound times random now centerX centerY numStars numArms armTightness armSpread
     bulgeFraction maxRadius starMass gravityConstant images).
Local Abbreviation generate :=
  (generateSpiralGalaxyStars times random now centerX centerY numStars numArms
     armTightness armSpread bulgeFraction maxRadius starMass gravityConstant
     images).

(** A loop whose rounds read [Math.random()] [perStar] times and
    [Date.now()] once for every star they push. *)
Lemma forLoop_reads {S : Type} (proj : S -> list Star) (perStar : nat)
    (body : Z -> S -> Gen S) :
  (forall i s c, exists pushed,
      proj (fst (body i s c)) = proj s ++ pushed
      /\ randomCalls (snd (body i s c))
         = (randomCalls c + perStar * length pushed)%nat
      /\ nowCalls (snd (body i s c)) = (nowCalls c + length pushed)%nat) ->
  forall n i s c,
    exists pushed,
      proj (fst (forLoop n i body s c)) = proj s ++ pushed
      /\ randomCalls (snd (forLoop n i body s c))
         = (randomCalls c + perStar * length pushed)%nat
      /\ nowCalls (snd (forLoop n i body s c)) = (nowCalls c + length pushed)%nat.
Proof.
  intros Hbody. induction n as [|n IH]; intros i s c.
  - exists []. simpl. rewrite app_nil_r. repeat split; lia.
  - cbn [forLoop]. unfold bind.
    destruct (Hbody i s c) as (p1 & Hp1 & Hr1 & Hn1).
    destruct (body i s c) as [s1 c1]. cbn [fst snd] in *.
    destruct (IH (i + 1)%Z s1 c1) as (p2 & Hp2 & Hr2 & Hn2).
    exists (p1 ++ p2). rewrite Hp2, Hp1, <- app_assoc, Hr2, Hn2, Hr1, Hn1.
    rewrite length_app. repeat split; lia.
Qed.

Lemma bulgeStar_reads i stars c :
  exists pushed,
    fst (bulgeRound i stars c) = stars ++ pushed
    /\ randomCalls (snd (bulgeRound i stars c)) = (randomCalls c + 7 * length pushed)%nat
    /\ nowCalls (snd (bulgeRound i stars c)) = (nowCalls c + length pushed)%nat.
Proof.
  unfold bulgeStar, bind, Math_random, Date_now, ret; simpl.
  eexists. split; [reflexivity|]. simpl. split; lia.
Qed.

Lemma armStar_reads baseArmAngle starsInThisArm i stars c :
  exists pushed,
    fst (armStarRound baseArmAngle starsInThisArm i stars c) = stars ++ pushed
    /\ randomCalls (snd (armStarRound baseArmAngle starsInThisArm i stars c))
       = (randomCalls c + 4 * length pushed)%nat
    /\ nowCalls (snd (armStarRound baseArmAngle starsInThisArm i stars c))
       = (nowCalls c + length pushed)%nat.
Proof.
  unfold armStar. destruct (Js.gtb _ maxRadius).
  { exists []. unfold ret; simpl. rewrite app_nil_r. repeat split; lia. }
  unfold bind, Math_random, Date_now, ret; simpl.
  eexists. split; [reflexivity|]. simpl. split; lia.
Qed.

(** X17. The generator reads [Date.now()] exactly once for every star it
    returns and [Math.random()] seven times for a bulge star and four
    times for an arm star; an arm star that is skipped reads neither. *)
Theorem generator_reads_per_star (c : Calls) :
  exists armStars,
    fst (generate c) = fst (bulge c) ++ armStars
    /\ nowCalls (snd (generate c)) = (nowCalls c + length (fst (generate c)))%nat
    /\ randomCalls (snd (generate c))
       = (randomCalls c + 7 * length (fst (bulge c)) + 4 * length armStars)%nat.
Proof.
  unfold generateSpiralGalaxyStars, bind.
  assert (Hb : randomCalls (snd (bulge c))
               = (randomCalls c + 7 * length (fst (bulge c)))%nat
               /\ nowCalls (snd (bulge c)) = (nowCalls c + length (fst (bulge c)))%nat).
  { unfold bulgeLoop, forUpTo.
    destruct (forLoop_reads (fun s => s) 7 bulgeRound
                (fun i s c' => bulgeStar_reads i s c')
                (Z.to_nat (bulgeStarsCount times numStars bulgeFraction)) 0%Z [] c)
      as (pushed & Hp & Hr & Hn).
    rewrite Hp, Hr, Hn. split; reflexivity. }
  destruct (bulge c) as [stars c1]. cbn [fst snd] in *.
  destruct Hb as [Hbr Hbn].
  unfold armLoop, forUpTo, bind, ret.
  destruct (forLoop_reads (@fst (list Star) Z) 4 armsRound)
    with (n := Z.to_nat numArms) (i := 0%Z)
         (s := (stars, remainder (armStarsCount times numStars bulgeFraction) numArms))
         (c := c1) as (pushed & Hp & Hr & Hn).
  - intros arm [stars0 remaining] c'. unfold armRound, bind, ret, forUpTo.
    match goal with
    | |- context [forLoop ?count ?start ?round stars0 c'] =>
        pose proof (fun Hround =>
                      forLoop_reads (fun s : list Star => s) 4
                        round Hround count start stars0 c') as Hloop;
        destruct Hloop as (pushed & Hp & Hr & Hn);
        [intros j s c''; apply armStar_reads|];
        destruct (forLoop count start round stars0 c') as [stars' c'']
    end.
    exists pushed. cbn [fst snd] in *. repeat split; assumption.
  - destruct (forLoop _ _ _ _ _) as [s' c']. cbn [fst snd] in *.
    exists pushed. rewrite Hp, Hr, Hn, Hbr, Hbn, length_app.
    repeat split; lia.
Qed.

(** X18. Asked for no star, the generator returns none, whatever the
    other parameters are (the product of 0 and a fraction is 0 in doubles
    as in the reals, so it is [Rmult] here). *)
Theorem no_stars_requested_none_generated
    (arms : Z) (tightness spread fraction radius : R) (c : Calls) :
  fst (generateSpiralGalaxyStars Rmult random now centerX centerY 0 arms tightness spread
         fraction radius starMass gravityConstant images c) = [].
Proof.
  apply length_zero_iff_nil. rewrite generate_length.
  assert (Hb : bulgeStarsCount Rmult 0 fraction = 0%Z).
  { unfold bulgeStarsCount. apply floor_integer. ring. }
  assert (Ha : armStarsCount Rmult 0 fraction = 0%Z)
    by (unfold armStarsCount; now rewrite Hb).
  rewrite Hb. cbn [Z.to_nat Nat.add].
  pose proof (keptInArms_le Rmult 0 arms tightness fraction radius) as Hle.
  rewrite (sumFrom_ext_range _ (fun _ => 0%nat)) in Hle.
  - assert (Hz : forall n k, sumFrom (fun _ => 0%nat) n k = 0%nat).
    { induction n as [|n IH]; intros k; simpl; [reflexivity|apply IH]. }
    rewrite Hz in Hle. lia.
  - intros arm Harm. unfold starsInArm, starsPerArmBase, remainder.
    rewrite Ha.
    replace (Js.floor (0 / IZR arms)) with 0%Z
      by (symmetry; apply floor_integer; unfold Rdiv; ring).
    replace (Z.rem 0 arms) with 0%Z by (destruct arms; reflexivity).
    destruct (Z.ltb_spec arm 0); [lia|reflexivity].
Qed.

End GeneratorReads.

(** ** The page and its canvas *)

Section PageAndCanvas.

Import GalaxyCanvas Spec Notions.

Lemma step_keeps_pause props c ev :
  Home.fromBrowser ev = true -> isPaused (step props c ev) = isPaused c.
Proof.
  destruct ev; simpl; try discriminate; intros _; try reflexivity.
  - unfold handleMouseMove. destruct (isDragging c); simpl; [|reflexivity].
    destruct (lastMousePos c) as [[lx ly]|]; [|reflexivity].
    now destruct (Js.gtb _ 15).
  - unfold handleMouseUp. destruct (isDragging c); simpl; [|reflexivity].
    destruct (startDragPos c) as [[sx sy]|]; [|reflexivity].
    now destruct (Js.ltb _ 25).
  - unfold handleMouseLeave. now destruct (isDragging c).
  - unfold draw. destruct (isPaused c) eqn:Hp; [exact Hp|exact Hp].
Qed.

Lemma handle_keeps_pause_label h ev :
  Home.isActuallyPaused h = isPaused (Home.canvas h) ->
  Home.isActuallyPaused (Home.handle h ev)
  = isPaused (Home.canvas (Home.handle h ev)).
Proof.
  intros Hsync. destruct ev; simpl; try exact Hsync.
  - destruct (Home.fromBrowser ev) eqn:Hev; [|exact Hsync].
    cbn [Home.canvas Home.isActuallyPaused Home.set_canvas].
    rewrite step_keeps_pause by exact Hev. exact Hsync.
  - reflexivity.
  - unfold Home.handleClearStars, Home.clearStars, internalClearStars.
    destruct (isPaused (Home.canvas h)) eqn:Hp; simpl; [reflexivity|].
    now rewrite Hsync.
  - unfold Home.handleCreateSpiralGalaxy. rewrite Hsync.
    destruct (isPaused (Home.canvas h)) eqn:Hp; simpl; [reflexivity|].
    now rewrite Hsync.
Qed.

Lemma step_in_sync h ev : inSync h -> inSync (Home.step h ev).
Proof.
  intros [Hp _]. unfold Home.step, Home.starCountEffect, inSync. simpl.
  split; [now apply handle_keeps_pause_label|reflexivity].
Qed.

Lemma run_in_sync evs : forall h, inSync h -> inSync (Home.run h evs).
Proof.
  induction evs as [|ev evs IH]; intros h Hh; [exact Hh|].
  unfold Home.run in *. simpl. apply IH. now apply step_in_sync.
Qed.

Lemma initial_in_sync : inSync Home.initialState.
Proof. split; reflexivity. Qed.

(** X19. The page never shows a stale pause state: whatever the user
    does (pointer gestures, frames, pause, clear, create galaxy, sliders,
    resizes), the page's [isActuallyPaused] equals the canvas's [isPaused]
    and its counter equals the number of stars. *)
Theorem page_shows_the_canvas_state (evs : list Home.Event) :
  inSync (Home.run Home.initialState evs).
Proof. apply run_in_sync, initial_in_sync. Qed.

Lemma call_site_length random now cx cy starMass G radius c :
  (length (fst (Page.generateSpiralGalaxyStars Rmult random now cx cy 800 5 18 0.25 0.12
                  radius starMass G 5 c)) <= 800)%nat
  /\ (54 <= radius ->
      length (fst (Page.generateSpiralGalaxyStars Rmult random now cx cy 800 5 18 0.25 0.12
                     radius starMass G 5 c)) = 800%nat).
Proof.
  split.
  - change 800%nat with (Z.to_nat 800).
    apply generate_length_le. rewrite bulgeStarsCount_call_site. lia.
  - intros Hr. rewrite generate_length, bulgeStarsCount_call_site.
    rewrite keptInArms_all.
    + rewrite slots_total.
      * unfold Page.armStarsCount. rewrite bulgeStarsCount_call_site. reflexivity.
      * unfold Page.armStarsCount. rewrite bulgeStarsCount_call_site. lia.
      * lia.
    + intros arm i _ Hi. eapply Rle_trans; [now apply idealRadius_call_site|lra].
Qed.

(** X20. Create Galaxy appends the generated batch to the stars already
    there and leaves the simulation running, paused before or not.  The
    batch has at most 800 stars, and exactly 800 when both sides of the
    canvas measure at least 67.5. *)
Theorem create_galaxy_appends_and_resumes (evs : list Home.Event)
    (random now : nat -> R) :
  let h := Home.run Home.initialState evs in
  let h' := Home.step h (Home.ClickCreateGalaxy random now) in
  stars (Home.canvas h') = stars (Home.canvas h) ++ Home.newGalaxy random now h
  /\ isPaused (Home.canvas h') = false
  /\ Home.isActuallyPaused h' = false
  /\ (length (Home.newGalaxy random now h) <= 800)%nat
  /\ (67.5 <= Home.canvasWidth h -> 67.5 <= Home.canvasHeight h ->
      length (Home.newGalaxy random now h) = 800%nat
      /\ Home.starCount h' = (Home.starCount h + 800)%Z).
Proof.
  intros h h'.
  destruct (run_in_sync evs Home.initialState initial_in_sync) as [Hp Hc].
  fold h in Hp, Hc.
  assert (Hstars : stars (Home.canvas h')
                   = stars (Home.canvas h) ++ Home.newGalaxy random now h).
  { unfold h', Home.step, Home.starCountEffect. simpl.
    unfold Home.handleCreateSpiralGalaxy.
    destruct (Home.isActuallyPaused h); reflexivity. }
  split; [exact Hstars|].
  split.
  { unfold h', Home.step, Home.starCountEffect. simpl.
    unfold Home.handleCreateSpiralGalaxy. rewrite Hp.
    destruct (isPaused (Home.canvas h)) eqn:Hq; simpl; [now rewrite Hq|exact Hq]. }
  split.
  { unfold h', Home.step, Home.starCountEffect. simpl.
    unfold Home.handleCreateSpiralGalaxy. rewrite Hp.
    destruct (isPaused (Home.canvas h)) eqn:Hq; simpl; [now rewrite Hq|].
    now rewrite Hp. }
  unfold Home.newGalaxy at 1 2. cbv zeta.
  split; [apply call_site_length|].
  intros Hw Hh.
  assert (Hlen : length (Home.newGalaxy random now h) = 800%nat).
  { unfold Home.newGalaxy. cbv zeta. apply call_site_length.
    unfold Js.min. pose proof (Rmin_glb _ _ 67.5 Hw Hh). lra. }
  split; [exact Hlen|].
  assert (Hcount : Home.starCount h' = Z.of_nat (length (stars (Home.canvas h'))))
    by reflexivity.
  rewrite Hcount, Hstars, length_app, Hlen, Hc. lia.
Qed.

End PageAndCanvas.

(** * The further properties at concrete inputs *)

Section FurtherInstances.

Import GalaxyCanvas Page Spec Notions Sample Cases.

Lemma always_unit : unitInterval (always 0).
Proof. intros k. unfold always. lra. Qed.

Lemma twoStars_nonzero : Forall (fun s => mass s <> 0) (stars twoStars).
Proof. repeat constructor; simpl; lra. Qed.

Lemma twoStars_positive : Forall (fun s => 0 < mass s) (stars twoStars).
Proof. repeat constructor; simpl; lra. Qed.

Lemma frame_conserves_momentum_two_stars :
  Forall (fun s => mass s <> 0) (stars twoStars)
  /\ momentumX (physicsStep 1 0.1 (stars twoStars)) = momentumX (stars twoStars)
  /\ momentumY (physicsStep 1 0.1 (stars twoStars)) = momentumY (stars twoStars).
Proof.
  split; [exact twoStars_nonzero|].
  destruct (frame_conserves_momentum 1 0.1 (stars twoStars) twoStars_nonzero)
    as (Hx & Hy & _).
  split; [exact Hx|exact Hy].
Defined.

Lemma mirrored_pair_three_frames :
  isPaused mirrorPair = false
  /\ mirrored (movingStar 1 30 40 0 (-1)) (movingStar 2 (-30) (-40) 0 1)
  /\ exists a' b',
       stars (frames defaults 3 mirrorPair) = [a'; b'] /\ mirrored a' b'.
Proof.
  assert (Hm : mirrored (movingStar 1 30 40 0 (-1)) (movingStar 2 (-30) (-40) 0 1)).
  { unfold mirrored; simpl. repeat split; lra. }
  assert (Hid : id (movingStar 1 30 40 0 (-1)) <> id (movingStar 2 (-30) (-40) 0 1))
    by (simpl; lra).
  assert (Hpos : 0 < mass (movingStar 1 30 40 0 (-1))) by (simpl; lra).
  split; [reflexivity|]. split; [exact Hm|].
  destruct (mirrored_pair_stays_mirrored defaults 3 mirrorPair _ _
              eq_refl eq_refl Hid Hpos Hm) as (a' & b' & Hs & _ & _ & Hm').
  exists a', b'. split; [exact Hs|exact Hm'].
Defined.

Lemma pointer_ignored_until_press_stray :
  isDragging initialState = false
  /\ Forall (fun ev => notAPress ev = true) strayPointer
  /\ run defaults initialState strayPointer = initialState.
Proof.
  assert (Hall : Forall (fun ev => notAPress ev = true) strayPointer)
    by (repeat constructor).
  split; [reflexivity|]. split; [exact Hall|].
  apply (pointer_ignored_until_press defaults initialState strayPointer eq_refl Hall).
Defined.

Lemma leave_cancels_gesture_release_outside :
  Forall (fun ev => keepsPressed ev = true) [MouseMove 1 1 0 0]
  /\ Forall (fun ev => notAPress ev = true) [MouseUp 0 0 0 0]
  /\ stars (run defaults initialState
              [MouseDown 0 0; MouseMove 1 1 0 0; MouseLeave; MouseUp 0 0 0 0])
     = stars (run defaults initialState [MouseDown 0 0; MouseMove 1 1 0 0]).
Proof.
  assert (H1 : Forall (fun ev => keepsPressed ev = true) [MouseMove 1 1 0 0])
    by (repeat constructor).
  assert (H2 : Forall (fun ev => notAPress ev = true) [MouseUp 0 0 0 0])
    by (repeat constructor).
  split; [exact H1|]. split; [exact H2|].
  pose proof (leave_cancels_gesture defaults initialState 0 0
                [MouseMove 1 1 0 0] [MouseUp 0 0 0 0] H1 H2) as H.
  cbv zeta in H. destruct H as [H _]. exact H.
Defined.

Lemma stars_kept_until_clear_click :
  Forall (fun ev => isClear ev = false) clickThenFrame
  /\ exists kept added,
       stars (run defaults twoStars clickThenFrame) = kept ++ added
       /\ length kept = 2%nat.
Proof.
  assert (Hall : Forall (fun ev => isClear ev = false) clickThenFrame)
    by (repeat constructor).
  split; [exact Hall|].
  destruct (stars_kept_until_clear defaults twoStars clickThenFrame Hall)
    as (kept & added & Hs & _ & Hl).
  exists kept, added. split; [exact Hs|exact Hl].
Defined.

Lemma masses_stay_positive_click :
  0 < defaultMass defaults
  /\ Forall bringsPositiveMass clickThenFrame
  /\ Forall (fun s => 0 < mass s) (stars twoStars)
  /\ Forall (fun s => 0 < mass s) (stars (run defaults twoStars clickThenFrame)).
Proof.
  assert (Hm : 0 < defaultMass defaults) by (simpl; lra).
  assert (Hall : Forall bringsPositiveMass clickThenFrame)
    by (repeat constructor).
  split; [exact Hm|]. split; [exact Hall|]. split; [exact twoStars_positive|].
  apply (masses_stay_positive defaults twoStars clickThenFrame Hm Hall
           twoStars_positive).
Defined.

Lemma pause_then_resume_restores_three_frames :
  isPaused twoStars = false
  /\ internalTogglePause (frames defaults 3 (internalTogglePause twoStars)) = twoStars.
Proof.
  split; [reflexivity|].
  apply (pause_then_resume_restores defaults twoStars 3 eq_refl).
Defined.

Lemma sprite_centred_and_clamped_mass_16 :
  imagesLoaded twoStars = true
  /\ imageIndex spriteStar = Some 2%Z
  /\ (0 <= 2 < starImagesLength twoStars)%Z
  /\ 0 <= mass spriteStar
  /\ exists size,
       Render.paintStar twoStars spriteStar
       = Render.DrawImage 2 (x spriteStar - size / 2) (y spriteStar - size / 2)
           size size
       /\ 15 <= size <= 30.
Proof.
  assert (Hk : (0 <= 2 < starImagesLength twoStars)%Z) by (simpl; lia).
  assert (Hm : 0 <= mass spriteStar) by (simpl; lra).
  split; [reflexivity|]. split; [reflexivity|]. split; [exact Hk|].
  split; [exact Hm|].
  destruct (sprite_centred_and_clamped twoStars spriteStar 2 eq_refl eq_refl Hk Hm)
    as (size & Hp & _ & _ & Hs & _).
  exists size. split; [exact Hp|exact Hs].
Defined.

Lemma circle_without_image_before_loading :
  0 <= mass spriteStar
  /\ imagesLoaded initialState = false
  /\ exists radius,
       Render.paintStar initialState spriteStar
       = Render.FillCircle (x spriteStar) (y spriteStar) radius
       /\ 1 <= radius.
Proof.
  assert (Hm : 0 <= mass spriteStar) by (simpl; lra).
  split; [exact Hm|]. split; [reflexivity|].
  destruct (circle_without_image initialState spriteStar Hm (or_introl eq_refl))
    as (radius & Hp & Hr & _).
  exists radius. split; [exact Hp|exact Hr].
Defined.

Lemma images_loaded_three_load_two_fail :
  imagesLoaded initialState = false
  /\ imagesLoaded (Loader.component
                     (Loader.settleAll (Loader.mounted initialState) threeLoadTwoFail))
     = true.
Proof.
  split; [reflexivity|].
  pose proof (images_loaded_when_all_settled initialState threeLoadTwoFail eq_refl) as H.
  cbv zeta in H. destruct H as [[_ H] _]. apply H. simpl. lia.
Defined.

Lemma generated_stars_mass_and_image_call_site :
  unitInterval (always 0) /\ 0 < 10 /\ (0 < 5)%Z
  /\ Forall (fun s => 0 < mass s /\ indexBelow 5 s)
       (fst (generateSpiralGalaxyStars Rmult (always 0) (always 0) 400 300 800 5 18 0.25
               0.12 480 10 1 5 noCalls)).
Proof.
  assert (H1 : 0 < 10) by lra.
  assert (H2 : (0 < 5)%Z) by lia.
  split; [exact always_unit|]. split; [exact H1|]. split; [exact H2|].
  eapply Forall_impl;
    [|exact (generated_stars_mass_and_image Rmult (always 0) (always 0) 400 300
               800 5 18 0.25 0.12 480 10 1 5 always_unit H1 H2 noCalls)].
  intros s (_ & Hm & Hi). split; [exact Hm|exact Hi].
Defined.

Lemma bulge_stars_form_a_core_call_site :
  unitInterval (always 0) /\ 0 < 10 /\ (0 < 5)%Z /\ 0 <= 480
  /\ Forall (bulgeShape 400 300 480 10 5)
       (fst (bulgeLoop Rmult (always 0) (always 0) 400 300 800 0.12 480 10 5 noCalls)).
Proof.
  assert (H1 : 0 < 10) by lra.
  assert (H2 : (0 < 5)%Z) by lia.
  assert (H3 : 0 <= 480) by lra.
  split; [exact always_unit|]. split; [exact H1|]. split; [exact H2|].
  split; [exact H3|].
  destruct (bulge_stars_form_a_core Rmult (always 0) (always 0) 400 300 800 5 18
              0.25 0.12 480 10 1 5 always_unit H1 H2 noCalls H3) as (_ & H).
  exact H.
Defined.

Lemma arm_stars_orbit_the_centre_call_site :
  unitInterval (always 0) /\ 0 < 10 /\ (0 < 5)%Z /\ 0 <= 18 /\ 0 <= 0.25 <= 2
  /\ 0 <= 1 /\ 0 < 480 /\ (0 <= bulgeStarsCount Rmult 800 0.12 <= 800)%Z
  /\ exists armStars,
       fst (generateSpiralGalaxyStars Rmult (always 0) (always 0) 400 300 800 5 18 0.25
              0.12 480 10 1 5 noCalls)
       = fst (bulgeLoop Rmult (always 0) (always 0) 400 300 800 0.12 480 10 5 noCalls)
         ++ armStars
       /\ Forall (armShape 400 300 0.25 480 10 5) armStars
       /\ Forall (speedSqAtMost
                    (1 * (totalBulgeMass Rmult 800 0.12 10
                          + totalArmMass Rmult 800 0.12 10) / 6)) armStars.
Proof.
  assert (H1 : 0 < 10) by lra.
  assert (H2 : (0 < 5)%Z) by lia.
  assert (H3 : 0 <= 18) by lra.
  assert (H4 : 0 <= 0.25 <= 2) by lra.
  split; [exact always_unit|]. split; [exact H1|]. split; [exact H2|].
  assert (H5 : 0 <= 1) by lra.
  assert (H6 : 0 < 480) by lra.
  assert (H7 : (0 <= bulgeStarsCount Rmult 800 0.12 <= 800)%Z)
    by (rewrite bulgeStarsCount_call_site; lia).
  split; [exact H3|]. split; [exact H4|]. split; [exact H5|].
  split; [exact H6|]. split; [exact H7|].
  exact (arm_stars_orbit_the_centre Rmult (always 0) (always 0) 400 300 800 5 18
           0.25 0.12 480 10 1 5 always_unit H1 H2 noCalls H3 H4 H5 H6 H7).
Defined.

Lemma lone_star_drifts_three_frames :
  stars loneStar = [movingStar 1 0 0 1 2]
  /\ isPaused loneStar = false
  /\ 0 < mass (movingStar 1 0 0 1 2)
  /\ stars (frames defaults 3 loneStar)
     = [drift (INR 3 * timeStep defaults) (movingStar 1 0 0 1 2)].
Proof.
  assert (Hm : 0 < mass (movingStar 1 0 0 1 2)) by (simpl; lra).
  split; [reflexivity|]. split; [reflexivity|]. split; [exact Hm|].
  destruct (lone_star_drifts defaults 3 loneStar) as [_ H].
  apply (H _ eq_refl eq_refl Hm).
Defined.

Lemma create_galaxy_on_the_initial_page :
  67.5 <= Home.canvasWidth Home.initialState
  /\ 67.5 <= Home.canvasHeight Home.initialState
  /\ length (Home.newGalaxy (always 0) (always 0) Home.initialState) = 800%nat.
Proof.
  assert (Hw : 67.5 <= Home.canvasWidth Home.initialState) by (simpl; lra).
  assert (Hh : 67.5 <= Home.canvasHeight Home.initialState) by (simpl; lra).
  split; [exact Hw|]. split; [exact Hh|].
  pose proof (create_galaxy_appends_and_resumes [] (always 0) (always 0)) as H.
  cbv zeta in H. destruct H as (_ & _ & _ & _ & H).
  destruct (H Hw Hh) as [Hlen _]. exact Hlen.
Defined.

End FurtherInstances.
